(** * Android App Forge: the streaming parser, the path tree, the change
      reconciler and the project transitions

    A shallow embedding of the TypeScript sources

    - [App.tsx]  ([buildFileTree], [ensureStructuredReview],
      [handleGenerateApp], [handleModification], [handleImportProject]),
    - [services/geminiService.ts]  ([analyzeChanges]),
    - [components/FileExplorer.tsx]  (the ordering of the entries of a level),

    together with the properties of these functions.

    Conventions of the embedding.
    - A JavaScript string is a list of code units; a code unit is an [ascii],
      so the strings of the model are the strings over the Latin-1 range.
      [lit "..."] writes a literal.
    - [indexOf] answers [None] where JavaScript answers [-1].
    - A [Record<string, string>] used as a dictionary is a [gmap]; an object
      whose key order is observed ([Object.entries]) is an association list
      in insertion order.  Segment and file names that collide with members
      of [Object.prototype], and names that are canonical array indices
      (which JavaScript enumerates first), are outside the model.
    - A call of the model client or of another external service is an
      argument of the handler that says what the call answers: a value, or
      an exception with its message.
    - The React setters that only drive the display (status line, spinner
      flags, selected file) are left out; [activeProject], [projects],
      [error] and [changeSummary] are kept. *)

From Stdlib Require Import Ascii ZArith Lia.
From stdpp Require Import base option list strings gmap sorting pretty.

Local Open Scope char_scope.

(** * The embedding of the sources *)

(** ** JavaScript string primitives *)

Module JsString.

Abbreviation jsstring := (list ascii).

Definition lit (s : string) : jsstring := String.list_ascii_of_string s.

(** [s.startsWith(search)] *)
Fixpoint startsWith (s search : jsstring) : bool :=
  match search, s with
  | [], _ => true
  | _ :: _, [] => false
  | c :: search', d :: s' => bool_decide (c = d) && startsWith s' search'
  end.

(** Offset of the first occurrence of [search] in [s]. *)
Fixpoint firstOccurrence (search s : jsstring) : option nat :=
  if startsWith s search then Some 0
  else match s with
       | [] => None
       | _ :: s' => S <$> firstOccurrence search s'
       end.

(** [s.indexOf(search, position)]; the position is clamped to the length. *)
Definition indexOf (s search : jsstring) (position : nat) : option nat :=
  let start := position `min` length s in
  (λ i, start + i) <$> firstOccurrence search (drop start s).

(** [s.substring(start, end)]: both indices are clamped to the length and
    swapped when [start > end]. *)
Definition substring (s : jsstring) (start finish : nat) : jsstring :=
  let a := start `min` length s in
  let b := finish `min` length s in
  take (a `max` b - a `min` b) (drop (a `min` b) s).

(** [s.substring(start)] *)
Definition substringFrom (s : jsstring) (start : nat) : jsstring :=
  drop start s.

(** White space and line terminators of ECMAScript below U+0100. *)
Definition isWhiteSpace (c : ascii) : bool :=
  match c with
  | "009" | "010" | "011" | "012" | "013" | " " | "160" => true
  | _ => false
  end.

Fixpoint trimStart (s : jsstring) : jsstring :=
  match s with
  | c :: s' => if isWhiteSpace c then trimStart s' else s
  | [] => []
  end.

Definition trimEnd (s : jsstring) : jsstring :=
  reverse (trimStart (reverse s)).

(** [s.trim()] *)
Definition trim (s : jsstring) : jsstring := trimEnd (trimStart s).

(** [s.split(sep)] for a one-character separator. *)
Fixpoint split (sep : ascii) (s : jsstring) : list jsstring :=
  match s with
  | [] => [[]]
  | c :: s' =>
      if bool_decide (c = sep) then [] :: split sep s'
      else match split sep s' with
           | seg :: segs => (c :: seg) :: segs
           | [] => [[c]]
           end
  end.

(** [parts.join(sep)] *)
Fixpoint join (sep : jsstring) (parts : list jsstring) : jsstring :=
  match parts with
  | [] => []
  | [p] => p
  | p :: ps => p ++ sep ++ join sep ps
  end.

(** The default order of JavaScript strings ([<] on strings): the
    lexicographic order of the code units. *)
Fixpoint codeUnitCompare (a b : jsstring) : comparison :=
  match a, b with
  | [], [] => Eq
  | [], _ :: _ => Lt
  | _ :: _, [] => Gt
  | c :: a', d :: b' =>
      match (N_of_ascii c ?= N_of_ascii d)%N with
      | Eq => codeUnitCompare a' b'
      | r => r
      end
  end.

End JsString.

Import JsString.

(** ** The change reconciler ([analyzeChanges] of geminiService.ts) *)

Module Reconciler.

(** Truthiness of [files[path]]: [undefined] and the empty string are
    falsy. *)
Definition truthy (v : option jsstring) : bool :=
  match v with
  | Some (_ :: _) => true
  | _ => false
  end.

(** The test of the first loop of [analyzeChanges]:
    [newFiles[path] && newFiles[path] !== oldFiles[path]]. *)
Definition isModified (oldFiles newFiles : gmap jsstring jsstring)
    (path : jsstring) : bool :=
  truthy (newFiles !! path)
  && negb (bool_decide (newFiles !! path = oldFiles !! path)).

(** The entries of [oldFiles] whose BEFORE block is written into the
    review prompt. *)
Definition modifiedBefore (oldFiles newFiles : gmap jsstring jsstring)
    : gmap jsstring jsstring :=
  filter (λ kv, isModified oldFiles newFiles kv.1 = true) oldFiles.

(** The set of changed paths. *)
Definition changedPaths (oldFiles newFiles : gmap jsstring jsstring)
    : gset jsstring :=
  dom (modifiedBefore oldFiles newFiles).

Definition beforeBlock (path content : jsstring) : jsstring :=
  lit "

---
File: " ++ path ++ lit " (BEFORE)
---
" ++ content.

(** [oldFilesContent], with its fallback sentence. *)
Definition oldFilesContent (oldFiles newFiles : gmap jsstring jsstring)
    : jsstring :=
  let blocks :=
    concat ((λ kv, beforeBlock kv.1 kv.2)
              <$> map_to_list (modifiedBefore oldFiles newFiles)) in
  match blocks with
  | [] => lit "No files were changed. This was likely an addition of new files."
  | _ => blocks
  end.

End Reconciler.

(** ** Untyped JSON values and the review guard of App.tsx *)

Module Review.

(** A value read back from JSON ([any] in the source).  Numbers are kept as
    integers: only their being zero is ever observed. *)
#[warnings="-register-all"]
Inductive jsval :=
| JUndefined
| JNull
| JBool (b : bool)
| JNum (n : Z)
| JStr (s : jsstring)
| JArr (items : list jsval)
| JObj (props : list (jsstring * jsval)).

(** An object is an association list in key order, keys unique. *)
Fixpoint lookupProp {V} (props : list (jsstring * V)) (key : jsstring)
    : option V :=
  match props with
  | [] => None
  | (k, v) :: rest => if decide (k = key) then Some v else lookupProp rest key
  end.

(** [obj[key] = v]: an existing key keeps its place, a new key goes last. *)
Fixpoint setProp {V} (props : list (jsstring * V)) (key : jsstring) (v : V)
    : list (jsstring * V) :=
  match props with
  | [] => [(key, v)]
  | (k, w) :: rest =>
      if decide (k = key) then (k, v) :: rest else (k, w) :: setProp rest key v
  end.

(** [{...a, ...b}] on property lists. *)
Definition spread {V} (a b : list (jsstring * V)) : list (jsstring * V) :=
  foldl (λ acc kv, setProp acc kv.1 kv.2) a b.

(** [v.key] for a value that is neither [null] nor [undefined]. *)
Definition getMember (v : jsval) (key : jsstring) : jsval :=
  match v with
  | JObj props => default JUndefined (lookupProp props key)
  | _ => JUndefined
  end.

(** [!v] *)
Definition falsy (v : jsval) : bool :=
  match v with
  | JUndefined | JNull => true
  | JBool b => negb b
  | JNum n => bool_decide (n = 0%Z)
  | JStr s => bool_decide (s = [])
  | JArr _ | JObj _ => false
  end.

(** [Array.isArray(v)] *)
Definition isArray (v : jsval) : bool :=
  match v with
  | JArr _ => true
  | _ => false
  end.

Definition emptyReviewProps : list (jsstring * jsval) :=
  [ (lit "crashBugs", JArr []);
    (lit "uiUxImprovements", JArr []);
    (lit "otherSuggestions", JArr []) ].

Definition emptyReview : jsval := JObj emptyReviewProps.

(** The test of the third branch of [ensureStructuredReview]. *)
Definition hasReviewShape (review : jsval) : bool :=
  isArray (getMember review (lit "crashBugs"))
  && isArray (getMember review (lit "uiUxImprovements"))
  && isArray (getMember review (lit "otherSuggestions")).

(** [{ ...emptyReview, otherSuggestions: [{ id: 'legacy-review',
    description: review }] }] *)
Definition legacyReview (review : jsstring) : jsval :=
  JObj (setProp emptyReviewProps (lit "otherSuggestions")
          (JArr [ JObj [ (lit "id", JStr (lit "legacy-review"));
                         (lit "description", JStr review) ] ])).

Definition ensureStructuredReview (review : jsval) : jsval :=
  if falsy review then emptyReview
  else match review with
       | JStr s => legacyReview s
       | _ => if hasReviewShape review then review else emptyReview
       end.

End Review.

(** ** The data model of types.ts and the state kept by the App component *)

Module Model.

Record FilePlan := {
  path : jsstring;
  description : jsstring;
}.

Record AppPlan := {
  appName : jsstring;
  appDescription : jsstring;
  packageName : jsstring;
  permissions : list jsstring;
  dependencies : list jsstring;
  fileStructure : list FilePlan;
}.

(** [Suggestion]; its fields [id] and [description] carry a prefix here. *)
Record Suggestion := {
  suggestionId : jsstring;
  suggestionDescription : jsstring;
}.

Record StructuredReview := {
  crashBugs : list Suggestion;
  uiUxImprovements : list Suggestion;
  otherSuggestions : list Suggestion;
}.

(** [Project]; its field [id] is [projectId] here. *)
Record Project := {
  projectId : jsstring;
  prompt : jsstring;
  plan : AppPlan;
  files : gmap jsstring jsstring;
  review : StructuredReview;
  createdAt : jsstring;
}.

Definition emptyReview : StructuredReview :=
  {| crashBugs := []; uiUxImprovements := []; otherSuggestions := [] |}.

(** [{ ...p, review }] *)
Definition withReview (r : StructuredReview) (p : Project) : Project :=
  {| projectId := projectId p; prompt := prompt p; plan := plan p;
     files := files p; review := r; createdAt := createdAt p |}.

(** [{ ...p, files }] *)
Definition withFiles (f : gmap jsstring jsstring) (p : Project) : Project :=
  {| projectId := projectId p; prompt := prompt p; plan := plan p;
     files := f; review := review p; createdAt := createdAt p |}.

(** [{ ...p, files: { ...p.files, [path]: code } }] *)
Definition withFile (path code : jsstring) (p : Project) : Project :=
  withFiles (<[path := code]> (files p)) p.

(** What a call of an external service answers. *)
Inductive Outcome (A : Type) :=
| Returned (value : A)
| Threw (message : jsstring).
Arguments Returned {A} value.
Arguments Threw {A} message.

(** A stream of the model client: the texts of the chunks it delivers, and
    the message of the exception that ends the iteration, if one does. *)
Record StreamAnswer := {
  chunks : list jsstring;
  failure : option jsstring;
}.

(** The calls of external services a handler makes, in order. *)
Inductive ExternalCall :=
| CallGenerateAppPlan (prompt : jsstring)
| CallGenerateFileCodeStream (plan : AppPlan) (file : FilePlan)
| CallReviewCode (files : gmap jsstring jsstring)
| CallModifyCodeStream (modificationPrompt : jsstring) (project : Project)
| CallAnalyzeChanges (oldFiles newFiles : gmap jsstring jsstring).

(** The React state of [App] that the handlers write, and the log of their
    external calls. *)
Record AppState := {
  activeProject : option Project;
  projects : list Project;
  error : option jsstring;
  changeSummary : option jsstring;
  calls : list ExternalCall;
}.

Definition setActiveProject (f : option Project → option Project)
    (st : AppState) : AppState :=
  {| activeProject := f (activeProject st); projects := projects st;
     error := error st; changeSummary := changeSummary st;
     calls := calls st |}.

Definition setProjects (ps : list Project) (st : AppState) : AppState :=
  {| activeProject := activeProject st; projects := ps;
     error := error st; changeSummary := changeSummary st;
     calls := calls st |}.

Definition setError (e : option jsstring) (st : AppState) : AppState :=
  {| activeProject := activeProject st; projects := projects st;
     error := e; changeSummary := changeSummary st; calls := calls st |}.

Definition setChangeSummary (s : option jsstring) (st : AppState)
    : AppState :=
  {| activeProject := activeProject st; projects := projects st;
     error := error st; changeSummary := s; calls := calls st |}.

Definition logCall (c : ExternalCall) (st : AppState) : AppState :=
  {| activeProject := activeProject st; projects := projects st;
     error := error st; changeSummary := changeSummary st;
     calls := calls st ++ [c] |}.

(** [saveProjects]: when [localStorage.setItem] throws, the exception is
    caught and [setProjects] is not reached. *)
Definition saveProjects (storageAccepts : bool) (updatedProjects : list Project)
    (st : AppState) : AppState :=
  if storageAccepts then setProjects updatedProjects st else st.

End Model.

Import Model.

(** ** The streaming parser and [handleModification] of App.tsx *)

Module Modification.

Definition startDelimiter : jsstring := lit "--FILE_START:".
Definition endDelimiter : jsstring := lit "--".
Definition fileEndDelimiter : jsstring := lit "--FILE_END--".

(** One pass through the body of the [while (true)] loop, up to its
    effects: which of the four exits the buffer selects. *)
Inductive Scan :=
| NoFileStart
| NoPathEnd
| OpenFile (path partialCode : jsstring)
| ClosedFile (path code rest : jsstring).

Definition scan (buffer : jsstring) : Scan :=
  match indexOf buffer startDelimiter 0 with
  | None => NoFileStart
  | Some startIndex =>
      match indexOf buffer endDelimiter (startIndex + length startDelimiter) with
      | None => NoPathEnd
      | Some endIndex =>
          let path :=
            trim (substring buffer (startIndex + length startDelimiter)
                    endIndex) in
          let contentStartIndex := endIndex + length endDelimiter in
          match indexOf buffer fileEndDelimiter contentStartIndex with
          | Some fileEndIndex =>
              ClosedFile path
                (trim (substring buffer contentStartIndex fileEndIndex))
                (substringFrom buffer
                   (fileEndIndex + length fileEndDelimiter))
          | None =>
              OpenFile path (substringFrom buffer contentStartIndex)
          end
      end
  end.

(** The locals of the [try] block.  [completed] records the assignments
    [updatedFiles[path] = code] in the order they are made. *)
Record Locals := {
  buffer : jsstring;
  updatedFiles : gmap jsstring jsstring;
  completed : list (jsstring * jsstring);
}.

Definition initialLocals : Locals :=
  {| buffer := []; updatedFiles := ∅; completed := [] |}.

Definition withBuffer (b : jsstring) (loc : Locals) : Locals :=
  {| buffer := b; updatedFiles := updatedFiles loc;
     completed := completed loc |}.

Definition fileClosed (path code rest : jsstring) (loc : Locals) : Locals :=
  {| buffer := rest;
     updatedFiles := <[path := code]> (updatedFiles loc);
     completed := completed loc ++ [(path, code)] |}.

(** The [while (true)] loop.  The second component is the current value of
    the [activeProject] state, written by the [setActiveProject] updaters.
    [None] is the answer of a loop that has not left after [fuel] passes. *)
Fixpoint whileLoop (fuel : nat) (loc : Locals) (active : option Project)
    : option (Locals * option Project) :=
  match fuel with
  | 0 => None
  | S fuel' =>
      match scan (buffer loc) with
      | NoFileStart | NoPathEnd => Some (loc, active)
      | OpenFile path partialCode =>
          Some (loc, withFile path partialCode <$> active)
      | ClosedFile path code rest =>
          whileLoop fuel' (fileClosed path code rest loc)
            (withFile path code <$> active)
      end
  end.

(** The body of [for await (const chunk of stream)]. *)
Definition onChunk (text : jsstring) (s : Locals * option Project)
    : option (Locals * option Project) :=
  let buffer' := buffer s.1 ++ text in
  whileLoop (S (length buffer')) (withBuffer buffer' s.1) s.2.

Fixpoint forAwait (texts : list jsstring) (s : Locals * option Project)
    : option (Locals * option Project) :=
  match texts with
  | [] => Some s
  | text :: rest => s' ← onChunk text s; forAwait rest s'
  end.

(** The [catch] block. *)
Definition catchBlock (message : jsstring) (originalReview : StructuredReview)
    (st : AppState) : AppState :=
  setActiveProject (fmap (withReview originalReview))
    (setError (Some (lit "Failed to modify code: " ++ message)) st).

Definition noChangesMessage : jsstring :=
  lit "The model did not return any file changes. Try rephrasing your request.".

Section Handler.

(** What [modifyCodeStream] answers to the one call of the attempt, what
    [analyzeChanges] answers, and whether [localStorage] takes the write. *)
Variable modifyCodeStream : Outcome StreamAnswer.
Variable analyzeChanges :
  gmap jsstring jsstring → gmap jsstring jsstring →
  Outcome (StructuredReview * jsstring).
Variable storageAccepts : bool.

(** Lines 280-357: the attempt, from [setIsModifying(true)] on.
    [activeProject] and [projects] are the values captured by the closure;
    [st] is the state the updaters act on. *)
Definition runModification (modificationPrompt : jsstring)
    (activeProject : Project) (projects : list Project) (st : AppState)
    : option AppState :=
  let st := setChangeSummary None (setError None st) in
  let oldFiles := files activeProject in
  let originalReview := review activeProject in
  let st := setActiveProject (fmap (withReview emptyReview)) st in
  let st := logCall (CallModifyCodeStream modificationPrompt activeProject) st in
  match modifyCodeStream with
  | Threw message => Some (catchBlock message originalReview st)
  | Returned stream =>
      s ← forAwait (chunks stream) (initialLocals, Model.activeProject st);
      let loc := s.1 in
      let st := setActiveProject (λ _, s.2) st in
      match failure stream with
      | Some message => Some (catchBlock message originalReview st)
      | None =>
          if bool_decide (size (updatedFiles loc) = 0)
             && bool_decide (trim (buffer loc) = [])
          then
            Some (setActiveProject (fmap (withReview originalReview))
                    (setError (Some noChangesMessage) st))
          else
            let newFiles := updatedFiles loc ∪ oldFiles in
            let st := logCall (CallAnalyzeChanges oldFiles newFiles) st in
            match analyzeChanges oldFiles newFiles with
            | Threw message => Some (catchBlock message originalReview st)
            | Returned (review, summary) =>
                let updatedProject :=
                  withReview review (withFiles newFiles activeProject) in
                let updatedProjects :=
                  (λ p, if decide (projectId p = projectId updatedProject)
                        then updatedProject else p) <$> projects in
                Some (setChangeSummary (Some summary)
                        (setActiveProject (λ _, Some updatedProject)
                           (saveProjects storageAccepts updatedProjects st)))
            end
      end
  end.

(** Lines 258-278: the guards and the text of the request. *)
Definition modificationPromptOf (selectedSuggestions : gset jsstring)
    (customModificationPrompt : jsstring) (activeProject : Project)
    : jsstring :=
  let allSuggestions :=
    crashBugs (review activeProject)
    ++ uiUxImprovements (review activeProject)
    ++ otherSuggestions (review activeProject) in
  let selectedDescs :=
    suggestionDescription
      <$> filter (λ s, suggestionId s ∈ selectedSuggestions) allSuggestions in
  let promptParts :=
    (match selectedDescs with
     | [] => []
     | _ => [lit "Implement the following suggestions:
- " ++ join (lit "
- ") selectedDescs]
     end)
    ++ (match trim customModificationPrompt with
        | [] => []
        | custom => [lit "Also, apply this custom request:
" ++ custom]
        end) in
  join (lit "

") promptParts.

Definition handleModification (selectedSuggestions : gset jsstring)
    (customModificationPrompt : jsstring) (st : AppState)
    : option AppState :=
  match activeProject st with
  | None => Some st
  | Some activeProject =>
      if bool_decide (size selectedSuggestions = 0)
         && bool_decide (trim customModificationPrompt = [])
      then Some st
      else
        match modificationPromptOf selectedSuggestions
                customModificationPrompt activeProject with
        | [] => Some st
        | modificationPrompt =>
            runModification modificationPrompt activeProject (projects st) st
        end
  end.

End Handler.

End Modification.

(** ** [Array.prototype.sort] *)

Module JsArray.

(** [sort] is stable, and for a consistent comparator its result is the one
    stable ordering of the array; it is computed here by insertion.  The
    comparator answers [Lt], [Eq], [Gt] for a negative, zero, positive
    number. *)
Fixpoint insertSorted {A} (compareFn : A → A → comparison) (x : A)
    (sorted : list A) : list A :=
  match sorted with
  | [] => [x]
  | y :: ys =>
      match compareFn x y with
      | Lt => x :: y :: ys
      | _ => y :: insertSorted compareFn x ys
      end
  end.

Definition sort {A} (compareFn : A → A → comparison) (l : list A) : list A :=
  foldl (λ acc x, insertSorted compareFn x acc) [] l.

End JsArray.

(** ** The path tree: [buildFileTree] of App.tsx and the ordering of
       FileExplorer.tsx *)

Module PathTree.
Import Review JsArray.

(** [FileTree | FilePlan]: a node is a file of the plan or a directory, an
    object from segment names to nodes, in key order. *)
#[warnings="-register-all"]
Inductive Node :=
| File (file : FilePlan)
| Tree (entries : list (jsstring * Node)).

Abbreviation FileTree := (list (jsstring * Node)).

(** ['path' in node]: a [FilePlan] has the property, a directory has it
    when one of its entries is named [path]. *)
Definition pathIn (node : Node) : bool :=
  match node with
  | File _ => true
  | Tree entries => bool_decide (is_Some (lookupProp entries (lit "path")))
  end.

(** The inner [parts.forEach] of [buildFileTree], from the level
    [currentLevel] on. *)
Fixpoint insertFile (parts : list jsstring) (file : FilePlan)
    (currentLevel : FileTree) : FileTree :=
  match parts with
  | [] => currentLevel
  | part :: rest =>
      match rest with
      | [] => setProp currentLevel part (File file)
      | _ :: _ =>
          let child :=
            match lookupProp currentLevel part with
            | Some (Tree entries) =>
                if pathIn (Tree entries) then [] else entries
            | Some (File _) | None => []
            end in
          setProp currentLevel part (Tree (insertFile rest file child))
      end
  end.

Section Build.

(** [String.prototype.localeCompare], whose order is the collation of the
    host. *)
Variable localeCompare : jsstring → jsstring → comparison.

Definition comparePaths (a b : FilePlan) : comparison :=
  localeCompare (path a) (path b).

Definition buildFileTree (files : list FilePlan) : FileTree :=
  let sortedFiles := sort comparePaths files in
  foldl (λ tree file, insertFile (split "/" (path file)) file tree)
    [] sortedFiles.

End Build.

(** The test of the comparator of FileExplorer.tsx:
    [typeof a === 'object' && a !== null && ('path' in a) === false]. *)
Definition isDir (node : Node) : bool := negb (pathIn node).

Definition compareEntries (a b : jsstring * Node) : comparison :=
  if isDir a.2 && negb (isDir b.2) then Lt
  else if negb (isDir a.2) && isDir b.2 then Gt
  else Eq.

(** [Object.entries(tree).sort(...)], the order in which [FileExplorer] and
    [TreeNode] present the entries of a level. *)
Definition sortedEntries (tree : FileTree) : list (jsstring * Node) :=
  sort compareEntries tree.

(** [tree[part1][part2]...]: the node at the end of a chain of segments. *)
Fixpoint nodeAt (parts : list jsstring) (level : FileTree) : option Node :=
  match parts with
  | [] => None
  | part :: rest =>
      match rest with
      | [] => lookupProp level part
      | _ :: _ =>
          match lookupProp level part with
          | Some (Tree entries) => nodeAt rest entries
          | _ => None
          end
      end
  end.

End PathTree.

(** ** The initial generation: [handleGenerateApp] of App.tsx *)

Module Generation.




Section Handler.

(** The answers of the model client (the file stream is asked once per
    index of the plan), whether [localStorage] takes the write, and the two
    readings of the clock, [Date.now()] and [new Date().toISOString()]. *)
Variable generateAppPlan : jsstring → Outcome AppPlan.
Variable generateFileCodeStream : nat → AppPlan → FilePlan → Outcome StreamAnswer.
Variable reviewCode : gmap jsstring jsstring → Outcome StructuredReview.
Variable storageAccepts : bool.
Variable dateNow : Z.
Variable isoNow : jsstring.





End Handler.

End Generation.

(** ** The archive import: [handleImportProject] of App.tsx *)

Module Importing.
Import Review JsArray.

(** [s.endsWith(suffix)] *)
Definition endsWith (s suffix : jsstring) : bool :=
  startsWith (reverse s) (reverse suffix).

(** [s.includes(search)] *)
Definition includes (s search : jsstring) : bool :=
  bool_decide (is_Some (firstOccurrence search s)).

(** [s.lastIndexOf(search)] *)
Definition lastIndexOf (s search : jsstring) : option nat :=
  (λ i, length s - length search - i)
    <$> firstOccurrence (reverse search) (reverse s).

(** An entry of the archive as JSZip presents it: its name relative to the
    root, whether it is a folder, and its content read as a string. *)
Record ZipEntry := {
  name : jsstring;
  dir : bool;
  content : jsstring;
}.

(** [zip.file(name)]: the entry of that name when it is a file. *)
Definition zipFile (zip : list ZipEntry) (n : jsstring) : option ZipEntry :=
  List.find (λ e, bool_decide (name e = n) && negb (dir e)) zip.

Definition isProjectJson (p : jsstring) : bool :=
  endsWith p (lit "/project.json") || bool_decide (p = lit "project.json").

Definition macPrefix : jsstring := lit "__MACOSX/".

(** The files read when the archive has no [project.json]. *)
Definition rawFiles (zip : list ZipEntry) : gmap jsstring jsstring :=
  foldl (λ importedFiles e,
           if negb (dir e) && negb (startsWith (name e) macPrefix)
           then <[name e := content e]> importedFiles
           else importedFiles)
    ∅ zip.

(** The files read below the folder of [project.json]. *)
Definition projectFiles (zip : list ZipEntry) (rootDir projectJsonPath : jsstring)
    : gmap jsstring jsstring :=
  foldl (λ importedFiles e,
           if startsWith (name e) rootDir && negb (dir e)
              && negb (bool_decide (name e = projectJsonPath))
              && negb (startsWith (name e) macPrefix)
           then
             match substringFrom (name e) (length rootDir) with
             | [] => importedFiles
             | projectFilePath =>
                 <[projectFilePath := content e]> importedFiles
             end
           else importedFiles)
    ∅ zip.

(** The comparator [a.split('/').length - b.split('/').length]. *)
Definition compareDepth (a b : jsstring) : comparison :=
  Nat.compare (length (split "/" a)) (length (split "/" b)).

(** A [Record<string, string>] as a JSON value; the order of its keys is
    not specified by the model. *)
Definition filesObject (m : gmap jsstring jsstring) : jsval :=
  JObj ((λ kv, (kv.1, JStr kv.2)) <$> map_to_list m).

(** The own enumerable properties that [{ ...v }] copies. *)
Definition ownProps (v : jsval) : list (jsstring * jsval) :=
  match v with
  | JObj props => props
  | JArr items => imap (λ i x, (lit (pretty i), x)) items
  | JStr s => imap (λ i c, (lit (pretty i), JStr [c])) s
  | _ => []
  end.

(** [v.key], a [TypeError] on [null] and [undefined]. *)
Definition memberOf (v : jsval) (key : jsstring) : Outcome jsval :=
  match v with
  | JNull | JUndefined =>
      Threw (lit "Cannot read properties of " ++
             (match v with JNull => lit "null" | _ => lit "undefined" end))
  | _ => Returned (getMember v key)
  end.

(** [v.length] for a value that is neither [null] nor [undefined]. *)
Definition lengthOf (v : jsval) : jsval :=
  match v with
  | JArr items => JNum (Z.of_nat (length items))
  | JStr s => JNum (Z.of_nat (length s))
  | _ => getMember v (lit "length")
  end.

(** The React state the import writes. *)
Record ImportState := {
  savedProjects : list jsval;
  importError : option jsstring;
  infoMessage : option jsstring;
}.

Definition importFailed (message : jsstring) (st : ImportState) : ImportState :=
  {| savedProjects := savedProjects st;
     importError :=
       Some (match message with
             | [] => lit "An unknown error occurred during import."
             | _ => message
             end);
     infoMessage := None |}.

Definition noFilesMessage : jsstring :=
  lit "Import failed: The zip file is empty or contains no files.".

Definition noMetadataMessage : jsstring :=
  lit "Import failed: could not read project.json from the zip file.".

Definition noSourcesMessage : jsstring :=
  lit "Import failed: project.json was found, but no source code files could be located in the archive.".

Definition importedPrompt : jsstring :=
  lit "Project imported from a ZIP archive.".

Section Handler.

(** [JSON.parse], the analysis service, whether [localStorage] takes the
    write, the two readings of the clock, and the answer of [x > 0] for an
    operand [x] that is not a number, a boolean, [null] or [undefined]. *)
Variable jsonParse : jsstring → Outcome jsval.
Variable analyzeImportedProject : gmap jsstring jsstring → Outcome jsval.
Variable storageAccepts : bool.
Variable dateNow : Z.
Variable isoNow : jsstring.
Variable coercedPositive : jsval → bool.

(** [x > 0] *)
Definition greaterThanZero (x : jsval) : bool :=
  match x with
  | JNum n => bool_decide (0 < n)%Z
  | JBool b => b
  | JUndefined | JNull => false
  | _ => coercedPositive x
  end.

(** [id: `proj_${Date.now()}`, createdAt: new Date().toISOString()] *)
Definition stamp (props : list (jsstring * jsval)) : list (jsstring * jsval) :=
  setProp (setProp props (lit "id") (JStr (lit "proj_" ++ lit (pretty dateNow))))
    (lit "createdAt") (JStr isoNow).

(** The end of both branches: [saveProjects([...projects, newProject])] and
    the message. *)
Definition importDone (newProject : jsval) (st : ImportState) : ImportState :=
  {| savedProjects :=
       if storageAccepts then savedProjects st ++ [newProject]
       else savedProjects st;
     importError := importError st;
     infoMessage := Some (lit "Project successfully imported!") |}.

(** [metadata.plan.fileStructure.length > 0] *)
Definition planListsFiles (metadata : jsval) : Outcome bool :=
  match memberOf metadata (lit "plan") with
  | Threw m => Threw m
  | Returned plan =>
      match memberOf plan (lit "fileStructure") with
      | Threw m => Threw m
      | Returned fileStructure =>
          match fileStructure with
          | JNull | JUndefined =>
              Threw (lit "Cannot read properties of undefined")
          | _ => Returned (greaterThanZero (lengthOf fileStructure))
          end
      end
  end.

(** The branch of an archive without [project.json]. *)
Definition importInferred (zip : list ZipEntry) (st : ImportState)
    : ImportState :=
  let importedFiles := rawFiles zip in
  if bool_decide (size importedFiles = 0) then importFailed noFilesMessage st
  else
    match analyzeImportedProject importedFiles with
    | Threw m => importFailed m st
    | Returned analysis =>
        match memberOf analysis (lit "plan") with
        | Threw m => importFailed m st
        | Returned plan =>
            let review := getMember analysis (lit "review") in
            let newProject :=
              JObj (stamp [ (lit "plan", plan); (lit "review", review);
                            (lit "files", filesObject importedFiles);
                            (lit "prompt", JStr importedPrompt) ]) in
            importDone newProject st
        end
    end.

(** The branch of an archive with [project.json]. *)
Definition importWithMetadata (zip : list ZipEntry)
    (projectJsonPaths : list jsstring) (st : ImportState) : ImportState :=
  match sort compareDepth projectJsonPaths with
  | [] => importFailed (lit "Cannot read properties of undefined") st
  | projectJsonPath :: _ =>
      match zipFile zip projectJsonPath with
      | None => importFailed noMetadataMessage st
      | Some metadataFile =>
          let rootDir :=
            if includes projectJsonPath (lit "/")
            then substring projectJsonPath 0
                   (default 0 (S <$> lastIndexOf projectJsonPath (lit "/")))
            else [] in
          match jsonParse (content metadataFile) with
          | Threw m => importFailed m st
          | Returned metadata =>
              let importedFiles := projectFiles zip rootDir projectJsonPath in
              let checked :=
                if bool_decide (size importedFiles = 0)
                then planListsFiles metadata
                else Returned false in
              match checked with
              | Threw m => importFailed m st
              | Returned true => importFailed noSourcesMessage st
              | Returned false =>
                  match memberOf metadata (lit "review") with
                  | Threw m => importFailed m st
                  | Returned review =>
                      let newProject :=
                        JObj (stamp
                                (setProp
                                   (setProp (ownProps metadata) (lit "review")
                                      (ensureStructuredReview review))
                                   (lit "files") (filesObject importedFiles)))
                      in
                      importDone newProject st
                  end
              end
          end
      end
  end.

(** [handleImportProject], from the loaded archive on. *)
Definition handleImportProject (zip : list ZipEntry) (st : ImportState)
    : ImportState :=
  let st := {| savedProjects := savedProjects st; importError := None;
               infoMessage := None |} in
  let projectJsonPaths := List.filter isProjectJson (name <$> zip) in
  match projectJsonPaths with
  | [] => importInferred zip st
  | _ => importWithMetadata zip projectJsonPaths st
  end.

End Handler.

End Importing.

(** ** The archive download: [createAndDownloadZip] of zipService.ts *)

Module ZipService.

(** [s.replace(/\s+/g, '_')]: every maximal run of white space becomes one
    underscore; [inRun] tells that the character before was white space. *)
Fixpoint replaceWhitespace (inRun : bool) (s : jsstring) : jsstring :=
  match s with
  | [] => []
  | c :: s' =>
      if isWhiteSpace c
      then (if inRun then [] else [ "_" ]) ++ replaceWhitespace true s'
      else c :: replaceWhitespace false s'
  end.

(** The metadata object: the project without its [id] and its [files]. *)
Record Metadata := {
  metaPrompt : jsstring;
  metaPlan : AppPlan;
  metaReview : StructuredReview;
  metaCreatedAt : jsstring;
}.

Definition metadata (project : Project) : Metadata :=
  {| metaPrompt := prompt project; metaPlan := plan project;
     metaReview := review project; metaCreatedAt := createdAt project |}.

Section Download.

(** [JSON.stringify(metadata, null, 2)] *)
Variable jsonStringify : Metadata → jsstring.

(** The calls [zip.file(name, data)], in order: [project.json], then the
    files of the project; the order of the files is not specified by the
    model. *)
Definition zipFileCalls (project : Project) : list (jsstring * jsstring) :=
  (lit "project.json", jsonStringify (metadata project))
  :: map_to_list (files project).

End Download.

(** [link.download] *)
Definition downloadName (project : Project) : jsstring :=
  replaceWhitespace false (appName (plan project)) ++ lit ".zip".

End ZipService.

(** * Properties *)

(** ** Facts about the string primitives *)

Module JsStringFacts.

Lemma startsWith_length (s search : jsstring) :
  startsWith s search = true → length search ≤ length s.
Proof.
  revert s. induction search as [|c search IH]; intros [|d s]; simpl;
    try lia; try discriminate.
  intros [_ H]%andb_prop. apply IH in H. lia.
Qed.

Lemma startsWith_app_le (s t search : jsstring) :
  length search ≤ length s → startsWith (s ++ t) search = startsWith s search.
Proof.
  revert s. induction search as [|c search IH]; intros [|d s] Hle;
    simpl in *; try reflexivity; try lia.
  - by destruct t.
  - rewrite IH by lia. reflexivity.
Qed.

Lemma startsWith_app (s t search : jsstring) :
  startsWith s search = true → startsWith (s ++ t) search = true.
Proof.
  intros H. rewrite startsWith_app_le; [done|by apply startsWith_length].
Qed.

Lemma firstOccurrence_nil (search : jsstring) :
  firstOccurrence search [] = if startsWith [] search then Some 0 else None.
Proof. reflexivity. Qed.

Lemma firstOccurrence_cons (search s : jsstring) (d : ascii) :
  firstOccurrence search (d :: s)
  = if startsWith (d :: s) search then Some 0
    else S <$> firstOccurrence search s.
Proof. reflexivity. Qed.

Lemma firstOccurrence_bound (search s : jsstring) (i : nat) :
  firstOccurrence search s = Some i → i + length search ≤ length s.
Proof.
  revert i. induction s as [|d s IH]; intros i.
  - rewrite firstOccurrence_nil.
    destruct (startsWith [] search) eqn:Hs; [|done].
    intros [= <-]. by apply startsWith_length in Hs.
  - rewrite firstOccurrence_cons.
    destruct (startsWith (d :: s) search) eqn:Hs.
    + intros [= <-]. by apply startsWith_length in Hs.
    + destruct (firstOccurrence search s) as [j|]; [|done].
      intros [= <-]. specialize (IH j eq_refl). simpl. lia.
Qed.

Lemma firstOccurrence_lookup (c : ascii) (search s : jsstring) (i : nat) :
  firstOccurrence (c :: search) s = Some i → s !! i = Some c.
Proof.
  revert i. induction s as [|d s IH]; intros i.
  - done.
  - rewrite firstOccurrence_cons.
    destruct (startsWith (d :: s) (c :: search)) eqn:Hs.
    + intros [= <-]. simpl in Hs.
      apply andb_prop in Hs as [Hc%bool_decide_eq_true _]. by subst.
    + destruct (firstOccurrence (c :: search) s) as [j|] eqn:Hj; [|done].
      intros [= <-]. by apply IH.
Qed.

(** An occurrence, once in the buffer, stays the first one when text is
    appended. *)
Lemma firstOccurrence_app (search s t : jsstring) (i : nat) :
  firstOccurrence search s = Some i →
  firstOccurrence search (s ++ t) = Some i.
Proof.
  revert i. induction s as [|d s IH]; intros i.
  - destruct search; [|done]. intros [= <-]. by destruct t.
  - intros H. pose proof (firstOccurrence_bound _ _ _ H) as Hb.
    change ((d :: s) ++ t) with (d :: (s ++ t)).
    rewrite firstOccurrence_cons in H |- *.
    change (d :: (s ++ t)) with ((d :: s) ++ t).
    destruct (startsWith (d :: s) search) eqn:Hs.
    + rewrite startsWith_app by done. done.
    + destruct (firstOccurrence search s) as [j|] eqn:Hj; [|done].
      injection H as <-. rewrite startsWith_app_le, Hs by (simpl in *; lia).
      by rewrite (IH j).
Qed.

Lemma indexOf_bound (s search : jsstring) (position i : nat) :
  search ≠ [] → indexOf s search position = Some i →
  position ≤ i ∧ i + length search ≤ length s.
Proof.
  intros Hne. unfold indexOf.
  destruct (firstOccurrence search (drop (position `min` length s) s))
    as [j|] eqn:Hj; [|done].
  intros [= <-]. apply firstOccurrence_bound in Hj.
  rewrite length_drop in Hj.
  assert (0 < length search) by (destruct search; [done|simpl; lia]).
  lia.
Qed.

Lemma indexOf_app (s t search : jsstring) (position i : nat) :
  search ≠ [] → indexOf s search position = Some i →
  indexOf (s ++ t) search position = Some i.
Proof.
  intros Hne H. pose proof (indexOf_bound _ _ _ _ Hne H) as [Hp Hb].
  assert (0 < length search) by (destruct search; [done|simpl; lia]).
  unfold indexOf in *. rewrite length_app.
  replace (position `min` (length s + length t)) with position by lia.
  replace (position `min` length s) with position in H by lia.
  rewrite drop_app_le by lia.
  destruct (firstOccurrence search (drop position s)) as [j|] eqn:Hj;
    [|done].
  by rewrite (firstOccurrence_app _ _ _ _ Hj).
Qed.

Lemma indexOf_zero_Some (s search : jsstring) (i : nat) :
  indexOf s search 0 = Some i → firstOccurrence search s = Some i.
Proof.
  unfold indexOf. rewrite Nat.min_0_l, drop_0.
  destruct (firstOccurrence search s); [|done]. by intros [= <-].
Qed.

Lemma substring_app (s t : jsstring) (start finish : nat) :
  start ≤ finish → finish ≤ length s →
  substring (s ++ t) start finish = substring s start finish.
Proof.
  intros H1 H2. unfold substring. rewrite length_app.
  replace (start `min` (length s + length t)) with start by lia.
  replace (finish `min` (length s + length t)) with finish by lia.
  replace (start `min` length s) with start by lia.
  replace (finish `min` length s) with finish by lia.
  replace (start `min` finish) with start by lia.
  replace (start `max` finish) with finish by lia.
  rewrite drop_app_le by lia. rewrite take_app_le; [done|].
  rewrite length_drop. lia.
Qed.

Lemma substringFrom_app (s t : jsstring) (start : nat) :
  start ≤ length s → substringFrom (s ++ t) start = substringFrom s start ++ t.
Proof. intros H. unfold substringFrom. by rewrite drop_app_le. Qed.

Lemma trimStart_nil (s : jsstring) :
  trimStart s = [] → Forall (λ c, isWhiteSpace c = true) s.
Proof.
  induction s as [|c s IH]; simpl; [constructor|].
  destruct (isWhiteSpace c) eqn:Hc; [|done].
  intros H. constructor; auto.
Qed.

Lemma trimStart_head (s : jsstring) (c : ascii) (r : jsstring) :
  trimStart s = c :: r → isWhiteSpace c = false.
Proof.
  induction s as [|d s IH]; simpl; [discriminate|].
  destruct (isWhiteSpace d) eqn:Hd; [done|]. by intros [= <- _].
Qed.

(** A string that trims to the empty string holds white space only. *)
Lemma trim_nil (s : jsstring) :
  trim s = [] → Forall (λ c, isWhiteSpace c = true) s.
Proof.
  unfold trim, trimEnd. intros H.
  apply (f_equal reverse) in H. rewrite reverse_involutive in H.
  change (reverse []) with (@nil ascii) in H.
  apply trimStart_nil in H. rewrite Forall_reverse in H.
  destruct (trimStart s) as [|c r] eqn:Hs; [by apply trimStart_nil|].
  apply trimStart_head in Hs. inversion H; congruence.
Qed.

Lemma split_nonempty (sep : ascii) (s : jsstring) : split sep s ≠ [].
Proof.
  destruct s as [|c s]; simpl; [done|].
  case_bool_decide; [done|]. by destruct (split sep s).
Qed.




End JsStringFacts.

(** ** Properties of the reconciler *)

Module ReconcilerFacts.
Import Reconciler.

(** What the loop reports: a path of [before] whose [after] content is a
    non-empty string different from the [before] content. *)
Lemma elem_of_changedPaths (before after : gmap jsstring jsstring)
    (p : jsstring) :
  p ∈ changedPaths before after ↔
  ∃ b a, before !! p = Some b ∧ after !! p = Some a ∧ a ≠ b ∧ a ≠ [].
Proof.
  unfold changedPaths, modifiedBefore. rewrite elem_of_dom.
  unfold is_Some. setoid_rewrite map_lookup_filter_Some. simpl.
  unfold isModified, truthy. split.
  - intros (b & Hb & Hm). rewrite Hb in Hm.
    destruct (after !! p) as [[|c a]|] eqn:Ha; simpl in Hm; try done.
    exists b, (c :: a). repeat split; auto.
  intros Heq. subst b. rewrite bool_decide_true in Hm; done.
  - intros (b & a & Hb & Ha & Hne & Hnil). exists b. split; [done|].
    rewrite Hb, Ha. destruct a as [|c a]; [done|]. simpl.
    rewrite bool_decide_false; [done|congruence].
Qed.

(** C3.  A file that exists in both snapshots and whose content became the
    empty string is a changed file, yet [analyzeChanges] leaves it out of
    the changed set: the truthiness test [newFiles[path] && ...] reads the
    empty content as an absent entry. *)
Theorem analyzeChanges_misses_emptied_file :
  let before : gmap jsstring jsstring := {[ lit "A.java" := lit "v1" ]} in
  let after : gmap jsstring jsstring := {[ lit "A.java" := lit "" ]} in
  before !! lit "A.java" = Some (lit "v1")
  ∧ after !! lit "A.java" = Some (lit "")
  ∧ lit "v1" ≠ lit ""
  ∧ lit "A.java" ∉ changedPaths before after.
Proof.
  cbv zeta. split_and!; [done|done|done|].
  rewrite elem_of_changedPaths. intros (b & a & _ & Ha & _ & Hnil).
  apply Hnil. rewrite lookup_singleton_eq in Ha. by injection Ha as <-.
Qed.

(** Identical snapshots have no changed path. *)
Lemma changedPaths_same (snapshot : gmap jsstring jsstring) :
  changedPaths snapshot snapshot = ∅.
Proof.
  apply set_eq. intros p. rewrite elem_of_changedPaths. split; [|set_solver].
  intros (b & a & Hb & Ha & Hne & _). congruence.
Qed.

(** A path that [before] does not hold is never reported. *)
Lemma changedPaths_in_before (before after : gmap jsstring jsstring)
    (p : jsstring) :
  p ∈ changedPaths before after → is_Some (before !! p).
Proof. rewrite elem_of_changedPaths. intros (b & _ & Hb & _). by exists b. Qed.

(** Example 3 of the specification. *)
Example reconcile_example3 :
  changedPaths
    (<[ lit "A.java" := lit "v1" ]> {[ lit "B.xml" := lit "v1" ]})
    (<[ lit "A.java" := lit "v1" ]>
       (<[ lit "B.xml" := lit "v2" ]> {[ lit "C.java" := lit "v1" ]}))
  = {[ lit "B.xml" ]}.
Proof.
  apply set_eq. intros p. rewrite elem_of_changedPaths, elem_of_singleton.
  split.
  - intros (b & a & Hb & Ha & Hne & _).
    destruct (decide (p = lit "A.java")) as [->|HA].
    { rewrite lookup_insert_eq in Hb, Ha. congruence. }
    rewrite lookup_insert_ne in Hb by done.
    destruct (decide (p = lit "B.xml")) as [->|HB]; [done|].
    rewrite lookup_singleton_ne in Hb by done. done.
  - intros ->. exists (lit "v1"), (lit "v2"). split_and!; done.
Qed.

End ReconcilerFacts.

(** ** Properties of the review guard *)

Module ReviewFacts.
Import Review.

Lemma lookupProp_setProp_eq {V} (props : list (jsstring * V))
    (key : jsstring) (v : V) :
  lookupProp (setProp props key v) key = Some v.
Proof.
  induction props as [|[k w] props IH]; simpl.
  - by rewrite decide_True.
  - destruct (decide (k = key)) as [->|Hne]; simpl.
    + by rewrite decide_True.
    + by rewrite decide_False.
Qed.

Lemma lookupProp_setProp_ne {V} (props : list (jsstring * V))
    (key key' : jsstring) (v : V) :
  key ≠ key' → lookupProp (setProp props key v) key' = lookupProp props key'.
Proof.
  intros Hne. induction props as [|[k w] props IH]; simpl.
  - by rewrite decide_False.
  - destruct (decide (k = key)) as [->|Hk]; simpl.
    + by rewrite !decide_False.
    + by rewrite IH.
Qed.

Lemma hasReviewShape_not_falsy (v : jsval) :
  hasReviewShape v = true → falsy v = false ∧ ∀ s, v ≠ JStr s.
Proof. destruct v; simpl; try discriminate. done. Qed.

(** C8, as the claim states it for the empty string: the claim asks for one
    suggestion that holds the string; the guard [!review] answers the empty
    review. *)
Lemma ensureStructuredReview_empty_string :
  ensureStructuredReview (JStr (lit "")) = emptyReview
  ∧ ensureStructuredReview (JStr (lit "")) ≠ legacyReview (lit "").
Proof. split; [reflexivity|discriminate]. Qed.

(** C8, amended.  The result always has the three category arrays.  A
    non-empty string becomes the single [legacy-review] suggestion under
    [otherSuggestions], the other two categories empty; the empty string is
    read as a missing review and yields the empty review, as do [undefined]
    and [null]; a value with the three arrays is returned unchanged; any
    other value that is not a string yields the empty review. *)
Theorem ensureStructuredReview_normalises (v : jsval) :
  hasReviewShape (ensureStructuredReview v) = true
  ∧ (∀ s, v = JStr s → s ≠ [] →
       ensureStructuredReview v = legacyReview s
       ∧ getMember (legacyReview s) (lit "crashBugs") = JArr []
       ∧ getMember (legacyReview s) (lit "uiUxImprovements") = JArr []
       ∧ getMember (legacyReview s) (lit "otherSuggestions")
         = JArr [ JObj [ (lit "id", JStr (lit "legacy-review"));
                         (lit "description", JStr s) ] ])
  ∧ (v = JUndefined ∨ v = JNull ∨ v = JStr [] →
       ensureStructuredReview v = emptyReview)
  ∧ (hasReviewShape v = true → ensureStructuredReview v = v)
  ∧ ((∀ s, v ≠ JStr s) → hasReviewShape v = false →
       ensureStructuredReview v = emptyReview).
Proof.
  split_and!.
  - unfold ensureStructuredReview.
    destruct (falsy v) eqn:Hf; [reflexivity|].
    destruct v as [| |b|n|s|items|props];
      try reflexivity; simpl in Hf; try discriminate.
    destruct (hasReviewShape (JObj props)) eqn:Hs; [done|reflexivity].
  - intros s -> Hs. split_and!; try reflexivity.
    unfold ensureStructuredReview. simpl.
    rewrite bool_decide_false by done. reflexivity.
  - intros [->|[->| ->]]; reflexivity.
  - intros Hs. destruct (hasReviewShape_not_falsy v Hs) as [Hf Hn].
    unfold ensureStructuredReview. rewrite Hf, Hs.
    destruct v as [| |b|n|s|items|props]; try reflexivity.
    by destruct (Hn s).
  - intros Hn Hs. unfold ensureStructuredReview. rewrite Hs.
    destruct (falsy v); [reflexivity|].
    destruct v as [| |b|n|s|items|props]; try reflexivity.
    by destruct (Hn s).
Qed.

Lemma ensureStructuredReview_normalises_witness :
  ensureStructuredReview (JStr (lit "looks fine"))
    = legacyReview (lit "looks fine")
  ∧ ensureStructuredReview JNull = emptyReview
  ∧ ensureStructuredReview emptyReview = emptyReview
  ∧ ensureStructuredReview (JNum 7) = emptyReview.
Proof.
  pose proof (ensureStructuredReview_normalises (JStr (lit "looks fine")))
    as (_ & Hstr & _).
  pose proof (ensureStructuredReview_normalises JNull) as (_ & _ & Hnull & _).
  pose proof (ensureStructuredReview_normalises emptyReview)
    as (_ & _ & _ & Hshape & _).
  pose proof (ensureStructuredReview_normalises (JNum 7))
    as (_ & _ & _ & _ & Hother).
  split_and!.
  - apply (Hstr (lit "looks fine")); [reflexivity|discriminate].
  - apply Hnull. right; left; reflexivity.
  - apply Hshape. reflexivity.
  - apply Hother; [discriminate|reflexivity].
Defined.

End ReviewFacts.

(** ** Facts about the streaming parser *)

Module ParserFacts.
Import Modification JsStringFacts.

Lemma startDelimiter_nonempty : startDelimiter ≠ [].
Proof. done. Qed.

Lemma endDelimiter_nonempty : endDelimiter ≠ [].
Proof. done. Qed.

Lemma fileEndDelimiter_nonempty : fileEndDelimiter ≠ [].
Proof. done. Qed.

Lemma scan_closed_inv (b path code rest : jsstring) :
  scan b = ClosedFile path code rest →
  ∃ startIndex endIndex fileEndIndex,
    indexOf b startDelimiter 0 = Some startIndex
    ∧ indexOf b endDelimiter (startIndex + length startDelimiter)
      = Some endIndex
    ∧ indexOf b fileEndDelimiter (endIndex + length endDelimiter)
      = Some fileEndIndex
    ∧ path = trim (substring b (startIndex + length startDelimiter) endIndex)
    ∧ code = trim (substring b (endIndex + length endDelimiter) fileEndIndex)
    ∧ rest = substringFrom b (fileEndIndex + length fileEndDelimiter).
Proof.
  unfold scan.
  destruct (indexOf b startDelimiter 0) as [si|] eqn:H1; [|done].
  destruct (indexOf b endDelimiter _) as [ei|] eqn:H2; [|done].
  destruct (indexOf b fileEndDelimiter _) as [fi|] eqn:H3; [|done].
  intros [= <- <- <-]. exists si, ei, fi. done.
Qed.

Lemma scan_open_inv (b path partialCode : jsstring) :
  scan b = OpenFile path partialCode →
  ∃ startIndex, indexOf b startDelimiter 0 = Some startIndex.
Proof.
  unfold scan.
  destruct (indexOf b startDelimiter 0) as [si|] eqn:H1; [|done]. eauto.
Qed.

(** A pass that closes a file leaves a strictly shorter buffer. *)
Lemma scan_closed_shorter (b path code rest : jsstring) :
  scan b = ClosedFile path code rest → length rest < length b.
Proof.
  intros (si & ei & fi & _ & _ & H3 & _ & _ & ->)%scan_closed_inv.
  apply indexOf_bound in H3 as [_ H3]; [|done].
  unfold substringFrom. rewrite length_drop.
  change (length fileEndDelimiter) with 12 in *. lia.
Qed.

(** A pass that closes a file closes the same file, with the same path and
    content, whatever text follows the buffer. *)
Lemma scan_closed_app (b t path code rest : jsstring) :
  scan b = ClosedFile path code rest →
  scan (b ++ t) = ClosedFile path code (rest ++ t).
Proof.
  intros (si & ei & fi & H1 & H2 & H3 & -> & -> & ->)%scan_closed_inv.
  pose proof (indexOf_bound _ _ _ _ endDelimiter_nonempty H2) as [? ?].
  pose proof (indexOf_bound _ _ _ _ fileEndDelimiter_nonempty H3) as [? ?].
  unfold scan.
  rewrite (indexOf_app _ t _ _ _ startDelimiter_nonempty H1).
  rewrite (indexOf_app _ t _ _ _ endDelimiter_nonempty H2).
  rewrite (indexOf_app _ t _ _ _ fileEndDelimiter_nonempty H3).
  rewrite !substring_app by lia. rewrite substringFrom_app by lia. done.
Qed.

Lemma whileLoop_fuel (n m : nat) (loc : Locals) (a : option Project) :
  length (buffer loc) < n → length (buffer loc) < m →
  whileLoop n loc a = whileLoop m loc a.
Proof.
  revert m loc a. induction n as [|n IH]; intros [|m] loc a Hn Hm; try lia.
  simpl. destruct (scan (buffer loc)) eqn:Hs; try done.
  apply scan_closed_shorter in Hs. apply IH; simpl; lia.
Qed.

(** The loop leaves within [length buffer + 1] passes. *)
Lemma whileLoop_total (n : nat) (loc : Locals) (a : option Project) :
  length (buffer loc) < n → is_Some (whileLoop n loc a).
Proof.
  revert loc a. induction n as [|n IH]; intros loc a Hn; [lia|].
  simpl. destruct (scan (buffer loc)) eqn:Hs; try done.
  apply scan_closed_shorter in Hs. apply IH; simpl; lia.
Qed.

(** The locals do not depend on the project the updaters act on. *)
Lemma whileLoop_locals (n : nat) (loc : Locals) (a a' : option Project) :
  fst <$> whileLoop n loc a = fst <$> whileLoop n loc a'.
Proof.
  revert loc a a'. induction n as [|n IH]; intros loc a a'; [done|].
  simpl. destruct (scan (buffer loc)); done.
Qed.

Lemma whileLoop_app (n : nat) (loc loc' : Locals) (a a' a0 a1 : option Project)
    (t : jsstring) (m k : nat) :
  length (buffer loc) < n → whileLoop n loc a = Some (loc', a') →
  length (buffer loc ++ t) < m → length (buffer loc' ++ t) < k →
  fst <$> whileLoop m (withBuffer (buffer loc ++ t) loc) a0
  = fst <$> whileLoop k (withBuffer (buffer loc' ++ t) loc') a1.
Proof.
  revert loc a m a0. induction n as [|n IH]; intros loc a m a0 Hn H Hm Hk;
    [lia|].
  simpl in H. destruct (scan (buffer loc)) as [| |p pc|p code rest] eqn:Hs.
  - injection H as <- <-.
    rewrite (whileLoop_fuel m k) by done. apply whileLoop_locals.
  - injection H as <- <-.
    rewrite (whileLoop_fuel m k) by done. apply whileLoop_locals.
  - injection H as <- <-.
    rewrite (whileLoop_fuel m k) by done. apply whileLoop_locals.
  - destruct m as [|m]; [lia|].
    pose proof (scan_closed_shorter _ _ _ _ Hs) as Hlt.
    cbn [whileLoop]. change (buffer (withBuffer (buffer loc ++ t) loc))
      with (buffer loc ++ t).
    rewrite (scan_closed_app _ t _ _ _ Hs).
    eapply (IH (fileClosed p code rest loc)); [simpl; lia|done| |done].
    simpl. rewrite length_app in *. lia.
Qed.

Lemma onChunk_total (text : jsstring) (s : Locals * option Project) :
  is_Some (onChunk text s).
Proof. apply whileLoop_total. simpl. lia. Qed.

(** Two chunks fed one after the other leave the locals that their
    concatenation fed at once leaves. *)
Lemma onChunk_app (t1 t2 : jsstring) (s : Locals * option Project) :
  fst <$> (onChunk t1 s ≫= onChunk t2) = fst <$> onChunk (t1 ++ t2) s.
Proof.
  destruct (onChunk_total t1 s) as [[loc' a'] H]. rewrite H.
  change (Some (loc', a') ≫= onChunk t2) with (onChunk t2 (loc', a')).
  unfold onChunk in *. cbn [fst snd]. symmetry.
  rewrite (app_assoc (buffer s.1) t1 t2).
  exact (whileLoop_app _ (withBuffer (buffer s.1 ++ t1) s.1) loc' s.2 a'
           s.2 a' t2 _ _ (Nat.lt_succ_diag_r _) H
           (Nat.lt_succ_diag_r _) (Nat.lt_succ_diag_r _)).
Qed.

(** No complete file is left in the buffer. *)
Definition drained (loc : Locals) : Prop :=
  ∀ path code rest, scan (buffer loc) ≠ ClosedFile path code rest.

Lemma whileLoop_drained (n : nat) (loc loc' : Locals) (a a' : option Project) :
  whileLoop n loc a = Some (loc', a') → drained loc'.
Proof.
  revert loc a. induction n as [|n IH]; intros loc a; [done|].
  simpl. destruct (scan (buffer loc)) eqn:Hs; try (by eapply IH);
    intros [= <- <-]; intros p c r; congruence.
Qed.

Lemma whileLoop_of_drained (n : nat) (loc : Locals) (a : option Project) :
  drained loc → fst <$> whileLoop (S n) loc a = Some loc.
Proof.
  intros Hd. simpl.
  destruct (scan (buffer loc)) as [| |p pc|p code rest] eqn:Hs; try done.
  by destruct (Hd p code rest).
Qed.

Lemma withBuffer_same (loc : Locals) : withBuffer (buffer loc) loc = loc.
Proof. by destruct loc. Qed.

Lemma forAwait_total (texts : list jsstring) (s : Locals * option Project) :
  is_Some (forAwait texts s).
Proof.
  revert s. induction texts as [|t texts IH]; intros s; [by eexists|].
  simpl. destruct (onChunk_total t s) as [s' ->]. apply IH.
Qed.

Lemma forAwait_drained (texts : list jsstring) (s s' : Locals * option Project) :
  drained s.1 → forAwait texts s = Some s' → drained s'.1.
Proof.
  revert s. induction texts as [|t texts IH]; intros s Hd; simpl.
  - by intros [= <-].
  - destruct (onChunk t s) as [[loc1 a1]|] eqn:H1; [|done]. simpl.
    apply IH. simpl. by eapply whileLoop_drained.
Qed.

(** Feeding the fragments one by one leaves the locals that the whole text
    fed as one fragment leaves. *)
Lemma forAwait_concat (texts : list jsstring) (s : Locals * option Project) :
  drained s.1 → fst <$> forAwait texts s = fst <$> onChunk (concat texts) s.
Proof.
  revert s. induction texts as [|t texts IH]; intros s Hd.
  - simpl. unfold onChunk. rewrite app_nil_r, withBuffer_same.
    by rewrite whileLoop_of_drained.
  - cbn [forAwait concat]. rewrite <- onChunk_app.
    destruct (onChunk t s) as [[loc1 a1]|] eqn:H1; [|done]. simpl.
    apply IH. simpl. by eapply whileLoop_drained.
Qed.

Lemma initialLocals_drained : drained initialLocals.
Proof. done. Qed.

End ParserFacts.

(** ** Facts about the streaming loop of [handleModification] *)

Module StreamingFacts.
Import Modification JsStringFacts ParserFacts.

(** The updaters of the loop only write the [files] of the project. *)
Definition sameButFiles (p q : Project) : Prop :=
  withFiles (files p) q = p.

Lemma sameButFiles_refl (p : Project) : sameButFiles p p.
Proof. by destruct p. Qed.

Lemma sameButFiles_withFile (p q : Project) (path code : jsstring) :
  sameButFiles p q → sameButFiles p (withFile path code q).
Proof. done. Qed.

Lemma whileLoop_active (n : nat) (loc loc' : Locals) (p q : Project)
    (a' : option Project) :
  sameButFiles p q → whileLoop n loc (Some q) = Some (loc', a') →
  ∃ q', a' = Some q' ∧ sameButFiles p q'.
Proof.
  revert loc q. induction n as [|n IH]; intros loc q Hq; [done|].
  simpl. destruct (scan (buffer loc)) as [| |pa pc|pa code rest].
  - intros [= <- <-]. eauto.
  - intros [= <- <-]. eauto.
  - intros [= <- <-]. eauto using sameButFiles_withFile.
  - apply IH. by apply sameButFiles_withFile.
Qed.

Lemma forAwait_active (texts : list jsstring) (loc loc' : Locals)
    (p q : Project) (a' : option Project) :
  sameButFiles p q → forAwait texts (loc, Some q) = Some (loc', a') →
  ∃ q', a' = Some q' ∧ sameButFiles p q'.
Proof.
  revert loc q. induction texts as [|t texts IH]; intros loc q Hq; simpl.
  - intros [= <- <-]. eauto.
  - destruct (onChunk t (loc, Some q)) as [[loc1 a1]|] eqn:H1; [|done].
    apply (whileLoop_active _ _ _ p) in H1 as (q1 & -> & Hq1); [|done].
    simpl. by apply IH.
Qed.

(** [updatedFiles] holds the assignments of [completed], later ones over
    earlier ones. *)
Definition recorded (loc : Locals) : Prop :=
  updatedFiles loc = list_to_map (reverse (completed loc)).

Lemma whileLoop_recorded (n : nat) (loc loc' : Locals) (a a' : option Project) :
  recorded loc → whileLoop n loc a = Some (loc', a') → recorded loc'.
Proof.
  revert loc a. induction n as [|n IH]; intros loc a Hr; [done|].
  simpl. destruct (scan (buffer loc)) as [| |pa pc|pa code rest];
    try (by intros [= <- <-]).
  apply IH. unfold recorded in *. simpl. rewrite reverse_snoc. simpl.
  by rewrite Hr.
Qed.

Lemma forAwait_recorded (texts : list jsstring)
    (s s' : Locals * option Project) :
  recorded s.1 → forAwait texts s = Some s' → recorded s'.1.
Proof.
  revert s. induction texts as [|t texts IH]; intros s Hr; simpl.
  - by intros [= <-].
  - destruct (onChunk t s) as [[loc1 a1]|] eqn:H1; [|done]. simpl.
    apply IH. simpl. unfold onChunk in H1.
    eapply whileLoop_recorded; [|exact H1]. exact Hr.
Qed.

Lemma recorded_lookup_None (loc : Locals) (p : jsstring) :
  recorded loc → p ∉ (completed loc).*1 → updatedFiles loc !! p = None.
Proof.
  intros -> Hp. apply not_elem_of_list_to_map_1.
  by rewrite fmap_reverse, elem_of_reverse.
Qed.

(** A buffer in which a file header starts is not blank. *)
Lemma header_not_blank (b : jsstring) (i : nat) :
  firstOccurrence startDelimiter b = Some i → trim b ≠ [].
Proof.
  intros H Ht. apply trim_nil in Ht.
  apply (firstOccurrence_lookup "-" (lit "-FILE_START:")) in H.
  rewrite Forall_lookup in Ht. by apply Ht in H.
Qed.

(** As long as no file is closed, either nothing was written to the
    project or a header is in the buffer. *)
Definition untouched (p : Project) (s : Locals * option Project) : Prop :=
  size (updatedFiles s.1) ≠ 0
  ∨ s.2 = Some p
  ∨ firstOccurrence startDelimiter (buffer s.1) ≠ None.

Lemma whileLoop_untouched (n : nat) (p : Project) (loc loc' : Locals)
    (a a' : option Project) :
  untouched p (loc, a) → whileLoop n loc a = Some (loc', a') →
  untouched p (loc', a').
Proof.
  revert loc a. induction n as [|n IH]; intros loc a Hu; [done|].
  simpl. destruct (scan (buffer loc)) as [| |pa pc|pa code rest] eqn:Hs.
  - by intros [= <- <-].
  - by intros [= <- <-].
  - intros [= <- <-]. right; right. simpl.
    apply scan_open_inv in Hs as [i Hi%indexOf_zero_Some]. by rewrite Hi.
  - apply IH. left. simpl. rewrite map_size_ne_0_lookup.
    exists pa. rewrite lookup_insert_eq. by eexists.
Qed.

Lemma forAwait_untouched (texts : list jsstring) (p : Project)
    (s s' : Locals * option Project) :
  untouched p s → forAwait texts s = Some s' → untouched p s'.
Proof.
  revert s. induction texts as [|t texts IH]; intros s Hu; simpl.
  - by intros [= <-].
  - destruct (onChunk t s) as [[loc1 a1]|] eqn:H1; [|done]. simpl.
    apply IH. eapply whileLoop_untouched; [|exact H1].
    destruct Hu as [Hu|[Hu|Hu]]; [by left|by right; left|].
    right; right. simpl.
    destruct (firstOccurrence startDelimiter (buffer s.1)) as [i|] eqn:Hi;
      [|done].
    by rewrite (firstOccurrence_app _ _ t _ Hi).
Qed.

(** With no file closed and a blank buffer at the end of the stream, the
    project was never written. *)
Lemma blank_stream_untouched (texts : list jsstring) (p : Project)
    (loc : Locals) (a : option Project) :
  forAwait texts (initialLocals, Some p) = Some (loc, a) →
  size (updatedFiles loc) = 0 → trim (buffer loc) = [] → a = Some p.
Proof.
  intros H Hsize Hblank.
  apply (forAwait_untouched _ p) in H; [|by right; left].
  destruct H as [H|[H|H]]; simpl in *; [done|done|].
  destruct (firstOccurrence startDelimiter (buffer loc)) as [i|] eqn:Hi;
    [|done].
  by apply header_not_blank in Hi.
Qed.

(** A loop that leaves on an open file has just written the text received
    so far into the project. *)
Lemma whileLoop_open (n : nat) (loc loc' : Locals) (q : Project)
    (a' : option Project) (path partialCode : jsstring) :
  whileLoop n loc (Some q) = Some (loc', a') →
  scan (buffer loc') = OpenFile path partialCode →
  ∃ q', a' = Some q' ∧ files q' !! path = Some partialCode.
Proof.
  revert loc q. induction n as [|n IH]; intros loc q; [done|].
  simpl. destruct (scan (buffer loc)) as [| |pa pc|pa code rest] eqn:Hs.
  - intros [= <- <-]. congruence.
  - intros [= <- <-]. congruence.
  - intros [= <- <-] Ho. rewrite Hs in Ho. injection Ho as -> ->.
    eexists. split; [done|]. simpl. by rewrite lookup_insert_eq.
  - apply IH.
Qed.

Lemma forAwait_open (texts : list jsstring) (loc loc' : Locals) (q : Project)
    (a' : option Project) (path partialCode : jsstring) :
  texts ≠ [] → forAwait texts (loc, Some q) = Some (loc', a') →
  scan (buffer loc') = OpenFile path partialCode →
  ∃ q', a' = Some q' ∧ files q' !! path = Some partialCode.
Proof.
  revert loc q. induction texts as [|t texts IH]; intros loc q Hne; [done|].
  simpl. destruct (onChunk t (loc, Some q)) as [[loc1 a1]|] eqn:H1; [|done].
  simpl. destruct texts as [|t' texts].
  - intros [= <- <-]. by eapply whileLoop_open.
  - pose proof (whileLoop_active _ _ _ q q _ (sameButFiles_refl q) H1)
      as (q1 & -> & _).
    by apply IH.
Qed.

End StreamingFacts.

(** ** Sample data for the closed statements below *)

Module Samples.

Definition samplePlan : AppPlan :=
  {| appName := lit "Notes"; appDescription := lit "A note taking app";
     packageName := lit "com.example.notes"; permissions := [];
     dependencies := [];
     fileStructure :=
       [ {| path := lit "A.java"; description := lit "The main activity" |} ]
  |}.

Definition sampleReview : StructuredReview :=
  {| crashBugs :=
       [ {| suggestionId := lit "fix-null-view";
            suggestionDescription := lit "Check the view for null" |} ];
     uiUxImprovements := []; otherSuggestions := [] |}.

Definition freshReview : StructuredReview :=
  {| crashBugs := []; uiUxImprovements := [];
     otherSuggestions :=
       [ {| suggestionId := lit "add-tests";
            suggestionDescription := lit "Add unit tests" |} ] |}.

Definition sampleProject : Project :=
  {| projectId := lit "proj_1"; prompt := lit "a note taking app";
     plan := samplePlan; files := {[ lit "A.java" := lit "old" ]};
     review := sampleReview; createdAt := lit "2024-01-01T00:00:00.000Z" |}.

Definition sampleState : AppState :=
  {| activeProject := Some sampleProject; projects := [sampleProject];
     error := None; changeSummary := None; calls := [] |}.

Definition samplePrompt : jsstring :=
  lit "Implement the following suggestions:
- Check the view for null".

(** An analysis service that always answers [freshReview]. *)
Definition analysisAnswers (oldFiles newFiles : gmap jsstring jsstring)
    : Outcome (StructuredReview * jsstring) :=
  Returned (freshReview, lit "Summary of the changes").

(** Example 1 of the specification, in three fragments and in one. *)
Definition helloFragments : list jsstring :=
  [ lit "--FILE_ST"; lit "ART: a.txt--
hel"; lit "lo
--FILE_END--" ].

Definition helloWhole : list jsstring :=
  [ lit "--FILE_START: a.txt--
hello
--FILE_END--" ].

(** A stream that breaks after the header and some content of a file. *)
Definition brokenStream : StreamAnswer :=
  {| chunks := [ lit "--FILE_START: A.java--new" ];
     failure := Some (lit "network error") |}.

(** Example 4 of the specification: the stream ends inside a file. *)
Definition truncatedStream : StreamAnswer :=
  {| chunks := [ lit "--FILE_START: X--
partial conten" ];
     failure := None |}.

(** A stream of commentary, without any file block. *)
Definition commentaryStream : StreamAnswer :=
  {| chunks := [ lit "Sorry, I cannot change this project." ];
     failure := None |}.

(** A stream of white space only. *)
Definition blankStream : StreamAnswer :=
  {| chunks := [ lit " "; lit "
" ];
     failure := None |}.

End Samples.

(** ** Properties of [handleModification] *)

Module ModificationFacts.
Import Modification JsStringFacts ParserFacts StreamingFacts Samples.

(** C4.  Two ways of cutting the same text into fragments leave the same
    [updatedFiles] (final content per path), the same sequence of completed
    files and the same unread rest; the loop returns for both.  The text
    need not be well formed. *)
Theorem rechunking_preserves_completions (texts1 texts2 : list jsstring)
    (active : option Project) :
  concat texts1 = concat texts2 →
  ∃ s1 s2,
    forAwait texts1 (initialLocals, active) = Some s1
    ∧ forAwait texts2 (initialLocals, active) = Some s2
    ∧ updatedFiles s1.1 = updatedFiles s2.1
    ∧ completed s1.1 = completed s2.1
    ∧ buffer s1.1 = buffer s2.1.
Proof.
  intros Heq.
  destruct (forAwait_total texts1 (initialLocals, active)) as [s1 H1].
  destruct (forAwait_total texts2 (initialLocals, active)) as [s2 H2].
  exists s1, s2. split; [done|]. split; [done|].
  pose proof (forAwait_concat texts1 (initialLocals, active)
                initialLocals_drained) as E1.
  pose proof (forAwait_concat texts2 (initialLocals, active)
                initialLocals_drained) as E2.
  rewrite H1, Heq in E1. rewrite H2, <- E1 in E2.
  injection E2 as E2. by rewrite E2.
Qed.

Lemma rechunking_preserves_completions_witness :
  ∃ s1 s2,
    forAwait helloFragments (initialLocals, None) = Some s1
    ∧ forAwait helloWhole (initialLocals, None) = Some s2
    ∧ updatedFiles s1.1 = updatedFiles s2.1
    ∧ completed s1.1 = completed s2.1
    ∧ buffer s1.1 = buffer s2.1.
Proof.
  apply (rechunking_preserves_completions helloFragments helloWhole None).
  reflexivity.
Defined.

(** Example 1 of the specification. *)
Example hello_fragments_complete_once :
  (λ s, completed s.1) <$> forAwait helloFragments (initialLocals, None)
  = Some [ (lit "a.txt", lit "hello") ].
Proof. vm_compute. reflexivity. Qed.

Lemma restore_review (ap q : Project) :
  sameButFiles (withReview emptyReview ap) q →
  withReview (review ap) q = withFiles (files q) ap.
Proof.
  unfold sameButFiles. destruct ap, q. cbv [withFiles withReview files
    projectId prompt plan review createdAt]. by intros [= -> -> -> -> ->].
Qed.

Lemma withFiles_same (p : Project) : withFiles (files p) p = p.
Proof. by destruct p. Qed.

Section Handler.

Variable modifyCodeStream : Outcome StreamAnswer.
Variable analyzeChanges :
  gmap jsstring jsstring → gmap jsstring jsstring →
  Outcome (StructuredReview * jsstring).
Variable storageAccepts : bool.

Abbreviation run :=
  (runModification modifyCodeStream analyzeChanges storageAccepts).

(** The project the updaters of the loop start from. *)
Definition streamingStart (ap : Project) : Locals * option Project :=
  (initialLocals, Some (withReview emptyReview ap)).

(** The attempt always returns. *)
Lemma runModification_total (modificationPrompt : jsstring) (ap : Project)
    (ps : list Project) (st : AppState) :
  is_Some (run modificationPrompt ap ps st).
Proof.
  unfold runModification. destruct modifyCodeStream as [stream|message];
    [|by eexists].
  match goal with |- context [forAwait ?t ?s] =>
    destruct (forAwait_total t s) as [s' ->] end.
  simpl. destruct (failure stream); [by eexists|].
  destruct (_ && _); [by eexists|].
  destruct (analyzeChanges _ _) as [[r sm]|m]; by eexists.
Qed.

Lemma streamingStart_active (modificationPrompt : jsstring) (ap : Project)
    (st : AppState) :
  activeProject st = Some ap →
  (initialLocals,
   activeProject
     (logCall (CallModifyCodeStream modificationPrompt ap)
        (setActiveProject (fmap (withReview emptyReview))
           (setChangeSummary None (setError None st)))))
  = streamingStart ap.
Proof. intros H. unfold streamingStart. simpl. by rewrite H. Qed.

(** C1, amended.  A failed attempt (the one that ends with [error] set)
    returns, leaves the saved project list as it was and gives the active
    project its review of before the attempt, with its id, prompt, plan and
    creation time.  Its files are those of before the attempt when the
    model client throws at the call, and when the attempt is reported as
    having produced no file changes; when the stream was iterated, they are
    the files as the stream last wrote them. *)
Theorem failed_modification_restores_review (modificationPrompt : jsstring)
    (ap : Project) (ps : list Project) (st : AppState) :
  activeProject st = Some ap →
  ∃ st', run modificationPrompt ap ps st = Some st'
    ∧ (error st' ≠ None →
       projects st' = projects st
       ∧ ∃ filesNow,
           activeProject st' = Some (withFiles filesNow ap)
           ∧ (∀ message, modifyCodeStream = Threw message →
                filesNow = files ap)
           ∧ (∀ stream, modifyCodeStream = Returned stream →
                ∃ loc streamed,
                  forAwait (chunks stream) (streamingStart ap)
                  = Some (loc, Some streamed)
                  ∧ filesNow = files streamed
                  ∧ (failure stream = None →
                     size (updatedFiles loc) = 0 →
                     trim (buffer loc) = [] → filesNow = files ap))).
Proof.
  intros Hst.
  destruct (runModification_total modificationPrompt ap ps st) as [st' Hrun].
  exists st'. split; [done|]. intros Herr.
  unfold runModification in Hrun.
  rewrite (streamingStart_active _ _ _ Hst) in Hrun.
  destruct modifyCodeStream as [stream|message].
  - destruct (forAwait (chunks stream) (streamingStart ap))
      as [[loc a]|] eqn:Hf; [|done].
    pose proof (forAwait_active _ _ _ _ _ _
                  (sameButFiles_refl (withReview emptyReview ap)) Hf)
      as (q & -> & Hq).
    pose proof (restore_review ap q Hq) as Hrestore.
    cbn [mbind option_bind fst snd] in Hrun.
    assert (∀ m stx, activeProject stx = Some q → projects stx = projects st →
              st' = catchBlock m (review ap) stx →
              projects st' = projects st
              ∧ ∃ filesNow,
                  activeProject st' = Some (withFiles filesNow ap)
                  ∧ (∀ message,
                       Returned stream = @Threw StreamAnswer message →
                       filesNow = files ap)
                  ∧ (∀ stream0, Returned stream = Returned stream0 →
                       ∃ loc0 streamed,
                         forAwait (chunks stream0) (streamingStart ap)
                         = Some (loc0, Some streamed)
                         ∧ filesNow = files streamed
                         ∧ (failure stream0 = None →
                            size (updatedFiles loc0) = 0 →
                            trim (buffer loc0) = [] → filesNow = files ap)))
      as Hcatch.
    { intros m stx Ha Hp ->. split; [done|]. exists (files q). split.
      { simpl. rewrite Ha. simpl. by rewrite Hrestore. }
      split; [done|]. intros ? [= <-]. exists loc, q.
      split; [done|]. split; [done|]. intros _ Hsize Hblank.
      pose proof (blank_stream_untouched _ _ _ _ Hf Hsize Hblank) as [= ->].
      done. }
    destruct (failure stream) as [message|] eqn:Hfail.
    { injection Hrun as <-. refine (Hcatch _ _ _ _ eq_refl); reflexivity. }
    destruct (bool_decide (size (updatedFiles loc) = 0)
              && bool_decide (trim (buffer loc) = [])) eqn:Hzero.
    { injection Hrun as <-. split; [done|]. exists (files q). split.
      { simpl. by rewrite Hrestore. }
      split; [done|]. intros ? [= <-]. exists loc, q.
      split; [done|]. split; [done|]. intros _ Hsize Hblank.
      pose proof (blank_stream_untouched _ _ _ _ Hf Hsize Hblank) as [= ->].
      done. }
    destruct (analyzeChanges _ _) as [[r sm]|message].
    { injection Hrun as <-. exfalso. apply Herr. unfold saveProjects.
      by destruct storageAccepts. }
    injection Hrun as <-. refine (Hcatch _ _ _ _ eq_refl); reflexivity.
  - injection Hrun as <-. split; [done|]. exists (files ap). split.
    { simpl. rewrite Hst. reflexivity. }
    split; [done|]. intros ? [=].
Qed.

Lemma run_after_stream (modificationPrompt : jsstring) (ap : Project)
    (ps : list Project) (st : AppState) (stream : StreamAnswer)
    (loc : Locals) (a : option Project) :
  activeProject st = Some ap →
  modifyCodeStream = Returned stream → failure stream = None →
  forAwait (chunks stream) (streamingStart ap) = Some (loc, a) →
  run modificationPrompt ap ps st =
  let st1 :=
    setActiveProject (λ _, a)
      (logCall (CallModifyCodeStream modificationPrompt ap)
         (setActiveProject (fmap (withReview emptyReview))
            (setChangeSummary None (setError None st)))) in
  if bool_decide (size (updatedFiles loc) = 0)
     && bool_decide (trim (buffer loc) = [])
  then Some (setActiveProject (fmap (withReview (review ap)))
               (setError (Some noChangesMessage) st1))
  else
    let newFiles := updatedFiles loc ∪ files ap in
    let st2 := logCall (CallAnalyzeChanges (files ap) newFiles) st1 in
    match analyzeChanges (files ap) newFiles with
    | Threw message => Some (catchBlock message (review ap) st2)
    | Returned (r, summary) =>
        let updatedProject := withReview r (withFiles newFiles ap) in
        Some (setChangeSummary (Some summary)
                (setActiveProject (λ _, Some updatedProject)
                   (saveProjects storageAccepts
                      ((λ p, if decide (projectId p = projectId updatedProject)
                             then updatedProject else p) <$> ps) st2)))
    end.
Proof.
  intros Hst Hm Hfail Hf. unfold runModification.
  rewrite (streamingStart_active _ _ _ Hst), Hm, Hf.
  cbn [mbind option_bind fst snd]. rewrite Hfail. reflexivity.
Qed.

(** C2, amended.  When the stream ends inside a file, the text received
    for it so far (not trimmed) is what the active project shows at the end
    of the stream, but no completion is recorded for it: the committed files
    are [oldFiles] overlaid with the completed files only, so the path of
    the open file keeps its content of before the attempt unless a block for
    it was completed earlier in the stream. *)
Theorem open_file_is_not_committed (modificationPrompt : jsstring)
    (ap : Project) (ps : list Project) (st : AppState) (stream : StreamAnswer)
    (loc : Locals) (a : option Project) (openPath partialCode : jsstring)
    (r : StructuredReview) (summary : jsstring) :
  activeProject st = Some ap →
  modifyCodeStream = Returned stream → failure stream = None →
  forAwait (chunks stream) (streamingStart ap) = Some (loc, a) →
  scan (buffer loc) = OpenFile openPath partialCode →
  analyzeChanges (files ap) (updatedFiles loc ∪ files ap)
  = Returned (r, summary) →
  (∃ shown, a = Some shown ∧ files shown !! openPath = Some partialCode)
  ∧ ∃ st', run modificationPrompt ap ps st = Some st'
      ∧ activeProject st'
        = Some (withReview r (withFiles (updatedFiles loc ∪ files ap) ap))
      ∧ updatedFiles loc = list_to_map (reverse (completed loc))
      ∧ (openPath ∉ (completed loc).*1 →
         (updatedFiles loc ∪ files ap) !! openPath = files ap !! openPath).
Proof.
  intros Hst Hm Hfail Hf Hopen Han.
  assert (recorded loc) as Hrec.
  { exact (forAwait_recorded _ (streamingStart ap) (loc, a) eq_refl Hf). }
  split.
  - assert (chunks stream ≠ []) as Hne.
    { intros Hnil. rewrite Hnil in Hf. injection Hf as <- <-. discriminate. }
    exact (forAwait_open _ _ _ _ _ _ _ Hne Hf Hopen).
  - rewrite (run_after_stream _ _ _ _ _ _ _ Hst Hm Hfail Hf). cbv zeta.
    destruct (scan_open_inv _ _ _ Hopen) as [i Hi%indexOf_zero_Some].
    apply header_not_blank in Hi.
    rewrite (bool_decide_eq_false_2 (trim (buffer loc) = [])) by done.
    rewrite andb_false_r, Han. eexists. split; [done|].
    split; [by destruct storageAccepts|]. split; [done|].
    intros Hnot. apply lookup_union_r. by apply recorded_lookup_None.
Qed.

(** C5, amended.  When the stream ends normally and no file was completed:
    if what is left in the buffer is blank, the attempt is reported as
    having produced no file changes, no analysis is requested, and project
    and saved list are as before the attempt; if it is not blank (some
    commentary, or an unfinished block), the analysis is requested for the
    unchanged files, and when it answers, its review is committed. *)
Theorem zero_files_reported_when_blank (modificationPrompt : jsstring)
    (ap : Project) (ps : list Project) (st : AppState) (stream : StreamAnswer)
    (loc : Locals) (a : option Project) :
  activeProject st = Some ap →
  modifyCodeStream = Returned stream → failure stream = None →
  forAwait (chunks stream) (streamingStart ap) = Some (loc, a) →
  size (updatedFiles loc) = 0 →
  ∃ st', run modificationPrompt ap ps st = Some st'
    ∧ (trim (buffer loc) = [] →
       error st' = Some noChangesMessage
       ∧ activeProject st' = Some ap
       ∧ projects st' = projects st
       ∧ changeSummary st' = None
       ∧ calls st' = calls st ++ [CallModifyCodeStream modificationPrompt ap])
    ∧ (trim (buffer loc) ≠ [] →
       calls st'
       = calls st ++ [CallModifyCodeStream modificationPrompt ap;
                      CallAnalyzeChanges (files ap) (files ap)]
       ∧ ∀ r summary,
           analyzeChanges (files ap) (files ap) = Returned (r, summary) →
           error st' = None
           ∧ activeProject st' = Some (withReview r ap)
           ∧ changeSummary st' = Some summary).
Proof.
  intros Hst Hm Hfail Hf Hsize.
  rewrite (run_after_stream _ _ _ _ _ _ _ Hst Hm Hfail Hf). cbv zeta.
  rewrite (bool_decide_eq_true_2 _ Hsize), andb_true_l.
  pose proof Hsize as Hempty. apply map_size_empty_iff in Hempty.
  rewrite Hempty, (left_id_L ∅ (∪)).
  case_bool_decide as Hblank.
  - eexists. split; [done|]. split; [|done]. intros _.
    pose proof (blank_stream_untouched _ _ _ _ Hf Hsize Hblank) as ->.
    split_and!; try done. simpl. f_equal. by destruct ap.
  - destruct (analyzeChanges (files ap) (files ap)) as [[r sm]|message] eqn:Han;
      (eexists; split; [done|]; split; [done|]; intros _; split;
       [unfold saveProjects; destruct storageAccepts; simpl;
        by rewrite <- app_assoc|]).
    + intros ? ? [= <- <-]. unfold saveProjects.
      destruct storageAccepts; split_and!; try done; simpl; f_equal;
        by destruct ap.
    + intros ? ? [=].
Qed.

End Handler.

(** With a project open and a request that is not empty, the handler is
    the attempt. *)
Lemma handleModification_attempt (modifyCodeStream : Outcome StreamAnswer)
    (analyzeChanges :
       gmap jsstring jsstring → gmap jsstring jsstring →
       Outcome (StructuredReview * jsstring))
    (storageAccepts : bool) (selectedSuggestions : gset jsstring)
    (customModificationPrompt : jsstring) (ap : Project) (st : AppState) :
  activeProject st = Some ap →
  size selectedSuggestions ≠ 0 ∨ trim customModificationPrompt ≠ [] →
  modificationPromptOf selectedSuggestions customModificationPrompt ap ≠ [] →
  handleModification modifyCodeStream analyzeChanges storageAccepts
    selectedSuggestions customModificationPrompt st
  = runModification modifyCodeStream analyzeChanges storageAccepts
      (modificationPromptOf selectedSuggestions customModificationPrompt ap)
      ap (projects st) st.
Proof.
  intros Hst Hguard Hprompt. unfold handleModification. rewrite Hst.
  assert (bool_decide (size selectedSuggestions = 0)
          && bool_decide (trim customModificationPrompt = []) = false) as ->.
  { destruct Hguard as [H|H].
    - by rewrite (bool_decide_eq_false_2 _ H).
    - by rewrite (bool_decide_eq_false_2 _ H), andb_false_r. }
  by destruct (modificationPromptOf _ _ _).
Qed.

(** The request built for the sample project when its one suggestion is
    selected. *)
Example samplePrompt_built :
  modificationPromptOf {[ lit "fix-null-view" ]} [] sampleProject
  = samplePrompt.
Proof. vm_compute. reflexivity. Qed.

(** C1, as the claim states it: the stream delivers a header and some
    content for [A.java] and then breaks.  The attempt fails, and the active
    project keeps the streamed text in place of the content of before the
    attempt. *)
Lemma failed_modification_keeps_streamed_files :
  ∃ st' p',
    runModification (Returned brokenStream) analysisAnswers true
      samplePrompt sampleProject [sampleProject] sampleState = Some st'
    ∧ error st' = Some (lit "Failed to modify code: network error")
    ∧ activeProject st' = Some p'
    ∧ review p' = review sampleProject
    ∧ files sampleProject !! lit "A.java" = Some (lit "old")
    ∧ files p' !! lit "A.java" = Some (lit "new")
    ∧ p' ≠ sampleProject.
Proof.
  do 2 eexists. split; [vm_compute; reflexivity|].
  split; [reflexivity|]. split; [reflexivity|]. split; [reflexivity|].
  split; [reflexivity|]. split; [reflexivity|].
  intros H. apply (f_equal (λ p, files p !! lit "A.java")) in H.
  vm_compute in H. discriminate.
Qed.

Lemma failed_modification_restores_review_witness :
  ∃ st',
    runModification (Returned brokenStream) analysisAnswers true
      samplePrompt sampleProject [sampleProject] sampleState = Some st'
    ∧ projects st' = [sampleProject]
    ∧ ∃ filesNow, activeProject st' = Some (withFiles filesNow sampleProject).
Proof.
  destruct (failed_modification_restores_review (Returned brokenStream)
              analysisAnswers true samplePrompt sampleProject [sampleProject]
              sampleState eq_refl) as (st' & Hrun & H).
  exists st'. split; [exact Hrun|].
  assert (error st' ≠ None) as Herr.
  { vm_compute in Hrun. injection Hrun as <-. discriminate. }
  destruct (H Herr) as (Hp & f & Ha & _). split; [exact Hp|]. by exists f.
Defined.

(** C2, as the claim states it (Example 4 of the specification): the
    stream ends inside the file [X].  No completion is produced for [X] and
    the committed files do not hold [X]. *)
Lemma truncated_file_is_dropped :
  ∃ s st' p',
    forAwait (chunks truncatedStream) (streamingStart sampleProject) = Some s
    ∧ scan (buffer s.1) = OpenFile (lit "X") (lit "
partial conten")
    ∧ completed s.1 = []
    ∧ runModification (Returned truncatedStream) analysisAnswers true
        samplePrompt sampleProject [sampleProject] sampleState = Some st'
    ∧ error st' = None
    ∧ activeProject st' = Some p'
    ∧ files p' !! lit "X" = None.
Proof.
  do 3 eexists. split; [vm_compute; reflexivity|].
  split; [vm_compute; reflexivity|]. split; [reflexivity|].
  split; [vm_compute; reflexivity|]. split; [reflexivity|].
  split; [reflexivity|]. vm_compute. reflexivity.
Qed.

Lemma open_file_is_not_committed_witness :
  ∃ s,
    forAwait (chunks truncatedStream) (streamingStart sampleProject) = Some s
    ∧ (∃ shown, s.2 = Some shown
         ∧ files shown !! lit "X" = Some (lit "
partial conten"))
    ∧ ∃ st',
        runModification (Returned truncatedStream) analysisAnswers true
          samplePrompt sampleProject [sampleProject] sampleState = Some st'
        ∧ activeProject st'
          = Some (withReview freshReview
                    (withFiles (updatedFiles s.1 ∪ files sampleProject)
                       sampleProject))
        ∧ (updatedFiles s.1 ∪ files sampleProject) !! lit "X"
          = files sampleProject !! lit "X".
Proof.
  destruct (forAwait_total (chunks truncatedStream)
              (streamingStart sampleProject)) as [[loc a] Hf].
  exists (loc, a). split; [exact Hf|].
  assert (scan (buffer loc) = OpenFile (lit "X") (lit "
partial conten") ∧ completed loc = []) as [Hopen Hcompleted].
  { vm_compute in Hf. injection Hf as <- <-. split; vm_compute; reflexivity. }
  destruct (open_file_is_not_committed (Returned truncatedStream)
              analysisAnswers true samplePrompt sampleProject [sampleProject]
              sampleState truncatedStream loc a (lit "X") (lit "
partial conten") freshReview (lit "Summary of the changes")
              eq_refl eq_refl eq_refl Hf Hopen eq_refl)
    as (Hshown & st' & Hrun & Hactive & _ & Hkeep).
  split; [exact Hshown|]. exists st'. split; [exact Hrun|].
  split; [exact Hactive|]. apply Hkeep. rewrite Hcompleted. apply not_elem_of_nil.
Defined.

(** C5, as the claim states it: the stream holds commentary and no file
    block.  The attempt is not reported as having produced no changes: the
    analysis is requested and its review is committed. *)
Lemma commentary_stream_is_committed :
  ∃ s st' p',
    forAwait (chunks commentaryStream) (streamingStart sampleProject) = Some s
    ∧ completed s.1 = []
    ∧ size (updatedFiles s.1) = 0
    ∧ runModification (Returned commentaryStream) analysisAnswers true
        samplePrompt sampleProject [sampleProject] sampleState = Some st'
    ∧ error st' = None
    ∧ calls st'
      = [ CallModifyCodeStream samplePrompt sampleProject;
          CallAnalyzeChanges (files sampleProject) (files sampleProject) ]
    ∧ activeProject st' = Some p'
    ∧ review p' = freshReview
    ∧ projects st' = [p'].
Proof.
  do 3 eexists. split; [vm_compute; reflexivity|].
  split; [reflexivity|]. split; [vm_compute; reflexivity|].
  split; [vm_compute; reflexivity|]. split; [reflexivity|].
  split; [vm_compute; reflexivity|]. split; [reflexivity|].
  split; [reflexivity|]. vm_compute. reflexivity.
Qed.

Lemma zero_files_reported_when_blank_witness :
  ∃ st',
    runModification (Returned blankStream) analysisAnswers true
      samplePrompt sampleProject [sampleProject] sampleState = Some st'
    ∧ error st' = Some noChangesMessage
    ∧ activeProject st' = Some sampleProject
    ∧ projects st' = [sampleProject]
    ∧ calls st' = [ CallModifyCodeStream samplePrompt sampleProject ].
Proof.
  destruct (forAwait_total (chunks blankStream)
              (streamingStart sampleProject)) as [[loc a] Hf].
  assert (size (updatedFiles loc) = 0 ∧ trim (buffer loc) = [])
    as [Hsize Hblank].
  { vm_compute in Hf. injection Hf as <- <-. split; vm_compute; reflexivity. }
  destruct (zero_files_reported_when_blank (Returned blankStream)
              analysisAnswers true samplePrompt sampleProject [sampleProject]
              sampleState blankStream loc a eq_refl eq_refl eq_refl Hf Hsize)
    as (st' & Hrun & Hyes & _).
  exists st'. split; [exact Hrun|].
  destruct (Hyes Hblank) as (He & Ha & Hp & _ & Hc). by split_and!.
Defined.

End ModificationFacts.

(** ** Facts about [sort] *)

Module JsArrayFacts.
Import JsArray.

Section Sorting.

Context {A : Type} (compareFn : A → A → comparison).

Lemma sort_snoc (l : list A) (x : A) :
  sort compareFn (l ++ [x]) = insertSorted compareFn x (sort compareFn l).
Proof. unfold sort. by rewrite foldl_snoc. Qed.

Lemma insertSorted_perm (x : A) (l : list A) :
  insertSorted compareFn x l ≡ₚ x :: l.
Proof.
  induction l as [|y l IH]; simpl; [done|].
  destruct (compareFn x y); try done; by rewrite IH, Permutation_swap.
Qed.

Lemma sort_perm (l : list A) : sort compareFn l ≡ₚ l.
Proof.
  induction l as [|x l IH] using rev_ind; [done|].
  rewrite sort_snoc, insertSorted_perm, IH.
  by rewrite Permutation_cons_append.
Qed.

(** The comparator is consistent: it is antisymmetric and [not greater] is
    transitive. *)
Hypothesis compare_antisym : ∀ a b, compareFn b a = CompOpp (compareFn a b).
Hypothesis compare_trans :
  ∀ a b c, compareFn a b ≠ Gt → compareFn b c ≠ Gt → compareFn a c ≠ Gt.

Definition notGreater (a b : A) : Prop := compareFn a b ≠ Gt.

Lemma insertSorted_sorted (x : A) (l : list A) :
  StronglySorted notGreater l →
  StronglySorted notGreater (insertSorted compareFn x l).
Proof.
  induction 1 as [|y l Hl IH Hy]; simpl.
  - repeat constructor.
  - destruct (compareFn x y) eqn:Hxy.
    + constructor; [by apply IH|].
      rewrite insertSorted_perm. constructor; [|done].
      unfold notGreater. rewrite compare_antisym, Hxy. done.
    + constructor; [by constructor|]. constructor.
      * unfold notGreater. by rewrite Hxy.
      * eapply Forall_impl; [exact Hy|]. intros z Hz.
        apply (compare_trans x y z); [by rewrite Hxy|done].
    + constructor; [by apply IH|].
      rewrite insertSorted_perm. constructor; [|done].
      unfold notGreater. rewrite compare_antisym, Hxy. done.
Qed.

Lemma sort_sorted (l : list A) : StronglySorted notGreater (sort compareFn l).
Proof.
  induction l as [|x l IH] using rev_ind; [constructor|].
  rewrite sort_snoc. by apply insertSorted_sorted.
Qed.

(** Stability: the elements of a class of ties keep their order. *)
Section Stable.

Context (P : A → Prop) `{!∀ x, Decision (P x)}.
Hypothesis ties : ∀ x y, P x → P y → compareFn x y = Eq.



End Stable.


End Sorting.

End JsArrayFacts.

(** ** Facts about the path tree *)

Module PathTreeFacts.
Import Review ReviewFacts JsArray PathTree JsStringFacts JsArrayFacts.


(** The level under [part] that [insertFile] goes on with. *)
Definition childLevel (level : FileTree) (part : jsstring) : FileTree :=
  match lookupProp level part with
  | Some (Tree entries) => if pathIn (Tree entries) then [] else entries
  | Some (File _) | None => []
  end.

Lemma insertFile_last (part : jsstring) (file : FilePlan) (level : FileTree) :
  insertFile [part] file level = setProp level part (File file).
Proof. reflexivity. Qed.

Lemma insertFile_cons (part part' : jsstring) (rest : list jsstring)
    (file : FilePlan) (level : FileTree) :
  insertFile (part :: part' :: rest) file level
  = setProp level part
      (Tree (insertFile (part' :: rest) file (childLevel level part))).
Proof. reflexivity. Qed.

Lemma nodeAt_last (k : jsstring) (level : FileTree) :
  nodeAt [k] level = lookupProp level k.
Proof. reflexivity. Qed.

Lemma nodeAt_cons (k k' : jsstring) (q : list jsstring) (level : FileTree) :
  nodeAt (k :: k' :: q) level
  = match lookupProp level k with
    | Some (Tree entries) => nodeAt (k' :: q) entries
    | _ => None
    end.
Proof. reflexivity. Qed.

(** The file is at the end of its own chain of segments. *)
Lemma nodeAt_insertFile_eq (parts : list jsstring) (file : FilePlan)
    (level : FileTree) :
  parts ≠ [] → nodeAt parts (insertFile parts file level) = Some (File file).
Proof.
  revert level. induction parts as [|part rest IH]; intros level Hne; [done|].
  destruct rest as [|part' rest].
  - rewrite insertFile_last, nodeAt_last. apply lookupProp_setProp_eq.
  - rewrite insertFile_cons, nodeAt_cons, lookupProp_setProp_eq.
    by apply IH.
Qed.


Definition insertAll (tree : FileTree) (files : list FilePlan) : FileTree :=
  foldl (λ tree file, insertFile (split "/" (path file)) file tree) tree files.


(** The code unit order is a consistent comparator that ties equal strings
    only. *)
Lemma codeUnitCompare_antisym (a b : jsstring) :
  codeUnitCompare b a = CompOpp (codeUnitCompare a b).
Proof.
  revert b. induction a as [|c a IH]; intros [|d b]; simpl; try done.
  rewrite (N.compare_antisym (N_of_ascii c) (N_of_ascii d)).
  destruct (N_of_ascii c ?= N_of_ascii d)%N; simpl; auto.
Qed.


Lemma codeUnitCompare_trans (a b c : jsstring) :
  codeUnitCompare a b ≠ Gt → codeUnitCompare b c ≠ Gt →
  codeUnitCompare a c ≠ Gt.
Proof.
  revert b c. induction a as [|x a IH]; intros [|y b] [|z c]; simpl;
    try done.
  destruct (N_of_ascii x ?= N_of_ascii y)%N eqn:Hxy;
    destruct (N_of_ascii y ?= N_of_ascii z)%N eqn:Hyz; try done.
  - apply N.compare_eq in Hxy. rewrite Hxy, Hyz. apply IH.
  - apply N.compare_eq in Hxy. by rewrite Hxy, Hyz.
  - apply N.compare_eq in Hyz. by rewrite <- Hyz, Hxy.
  - assert ((N_of_ascii x ?= N_of_ascii z)%N = Lt) as ->; [|done].
    rewrite N.compare_lt_iff in Hxy, Hyz |- *. lia.
Qed.

(** The comparator of the explorer puts a new entry behind the directories
    when it is a directory, behind everything otherwise. *)
Lemma insertSorted_compareEntries (x : jsstring * Node)
    (dirs others : list (jsstring * Node)) :
  Forall (λ e, isDir e.2 = true) dirs →
  Forall (λ e, isDir e.2 = false) others →
  insertSorted compareEntries x (dirs ++ others)
  = if isDir x.2 then dirs ++ x :: others else dirs ++ others ++ [x].
Proof.
  intros Hd Ho. induction Hd as [|y dirs Hy Hd IH]; simpl.
  - destruct (isDir x.2) eqn:Hx.
    + destruct Ho as [|y others Hy Ho]; [done|]. simpl.
      unfold compareEntries. by rewrite Hx, Hy.
    + induction Ho as [|y others Hy Ho IH]; [done|]. simpl.
      unfold compareEntries at 1. rewrite Hx, Hy. simpl. by rewrite IH.
  - unfold compareEntries at 1. rewrite Hy.
    destruct (isDir x.2) eqn:Hx; simpl; by rewrite IH.
Qed.

Lemma sortedEntries_partition (entries : FileTree) :
  sortedEntries entries
  = filter (λ e, isDir e.2 = true) entries
    ++ filter (λ e, isDir e.2 = false) entries.
Proof.
  unfold sortedEntries.
  induction entries as [|x entries IH] using rev_ind; [done|].
  rewrite sort_snoc, IH, insertSorted_compareEntries.
  - rewrite !filter_app, !filter_cons, !filter_nil.
    destruct (isDir x.2) eqn:Hx.
    + rewrite decide_True, decide_False by done.
      rewrite app_nil_r, (cons_middle x). by rewrite app_assoc.
    + rewrite decide_False, decide_True by done.
      rewrite app_nil_r. by rewrite app_assoc.
  - apply Forall_forall. by intros e [? _]%list_elem_of_filter.
  - apply Forall_forall. by intros e [? _]%list_elem_of_filter.
Qed.

(** Structural kind of a node. *)
Definition isTree (node : Node) : bool :=
  match node with
  | Tree _ => true
  | File _ => false
  end.

(** A directory none of whose entries is named [path]. *)
Definition noPathEntry (node : Node) : Prop :=
  match node with
  | Tree entries => lookupProp entries (lit "path") = None
  | File _ => True
  end.

Lemma isDir_isTree (node : Node) : noPathEntry node → isDir node = isTree node.
Proof.
  destruct node as [f|entries]; simpl; [done|]. intros H. unfold isDir.
  simpl. rewrite H. by rewrite bool_decide_false by (by intros [? ?]).
Qed.

Lemma filter_isDir_isTree (entries : FileTree) (b : bool) :
  Forall (λ e, noPathEntry e.2) entries →
  filter (λ e, isDir e.2 = b) entries = filter (λ e, isTree e.2 = b) entries.
Proof.
  induction 1 as [|e entries He _ IH]; [done|].
  rewrite !filter_cons, IH, (isDir_isTree _ He). done.
Qed.

(** Example 2 of the specification. *)
Definition exampleFiles : list FilePlan :=
  [ {| path := lit "app/src/Main.java"; description := lit "Entry point" |};
    {| path := lit "app/res/layout.xml"; description := lit "Main layout" |};
    {| path := lit "README.md"; description := lit "Notes" |} ].

(** Two resource folders of an Android project. *)
Definition resourceFiles : list FilePlan :=
  [ {| path := lit "res/values/strings.xml";
       description := lit "The texts" |};
    {| path := lit "res/values-night/themes.xml";
       description := lit "The dark theme" |} ].

Definition duplicateFiles : list FilePlan :=
  [ {| path := lit "a"; description := lit "first" |};
    {| path := lit "a"; description := lit "second" |} ].

(** C6, as the claim states it.  The plan holds [res/values/strings.xml]
    and [res/values-night/themes.xml].  The files are inserted in the order
    of their whole paths, in which [res/values-night/...] comes first since
    [-] sorts before [/]; so the level [res] lists the directory
    [values-night] before the directory [values], although [values] is the
    smaller name.  The collation is taken to be the code unit order, with
    which the collations of the hosts agree on these strings. *)
Lemma sibling_directories_not_in_name_order :
  ∃ level,
    nodeAt [lit "res"] (buildFileTree codeUnitCompare resourceFiles)
    = Some (Tree level)
    ∧ (sortedEntries level).*1 = [ lit "values-night"; lit "values" ]
    ∧ Forall (λ e, isTree e.2 = true) (sortedEntries level)
    ∧ codeUnitCompare (lit "values") (lit "values-night") = Lt.
Proof.
  eexists. split; [vm_compute; reflexivity|].
  split; [vm_compute; reflexivity|]. split; [|reflexivity].
  vm_compute. repeat constructor.
Qed.

(** C6, amended.  At a level none of whose directories has an entry named
    [path], the explorer lists all directories before all files, and
    within each of the two kinds the entries keep the key order of the
    level. *)
Theorem directories_first_in_key_order (entries : FileTree) :
  Forall (λ e, noPathEntry e.2) entries →
  sortedEntries entries
  = filter (λ e, isTree e.2 = true) entries
    ++ filter (λ e, isTree e.2 = false) entries.
Proof.
  intros H. rewrite sortedEntries_partition.
  by rewrite !(filter_isDir_isTree _ _ H).
Qed.

Lemma directories_first_in_key_order_witness :
  (sortedEntries (buildFileTree codeUnitCompare exampleFiles)).*1
  = [ lit "app"; lit "README.md" ].
Proof.
  rewrite directories_first_in_key_order; [vm_compute; reflexivity|].
  vm_compute. repeat constructor.
Defined.













(** The payload of a path entered twice follows the order of the list. *)
Example duplicate_paths_last_wins :
  buildFileTree codeUnitCompare duplicateFiles
  = [ (lit "a", File {| path := lit "a"; description := lit "second" |}) ]
  ∧ buildFileTree codeUnitCompare (reverse duplicateFiles)
    = [ (lit "a", File {| path := lit "a"; description := lit "first" |}) ].
Proof. split; vm_compute; reflexivity. Qed.

(** No directory of the node, at any depth, has an entry named [path]:
    the test ['path' in node] tells the files from the directories. *)
#[warnings="-register-all"]
Inductive pathFree : Node → Prop :=
| pathFree_File (file : FilePlan) : pathFree (File file)
| pathFree_Tree (entries : FileTree) :
    lookupProp entries (lit "path") = None →
    Forall (λ e, pathFree e.2) entries →
    pathFree (Tree entries).

Definition levelOk (level : FileTree) : Prop :=
  Forall (λ e, pathFree e.2) level.

Lemma levelOk_lookup (level : FileTree) (k : jsstring) (node : Node) :
  levelOk level → lookupProp level k = Some node → pathFree node.
Proof.
  induction 1 as [|[k' n] level Hn Hlevel IH]; simpl; [done|].
  destruct (decide (k' = k)); [by intros [= <-]|done].
Qed.

Lemma levelOk_setProp (level : FileTree) (k : jsstring) (node : Node) :
  levelOk level → pathFree node → levelOk (setProp level k node).
Proof.
  intros Hlevel Hnode.
  induction Hlevel as [|[k' n] level Hn Hlevel IH]; simpl.
  - by repeat constructor.
  - destruct (decide (k' = k)); by constructor.
Qed.

Lemma childLevel_ok (level : FileTree) (part : jsstring) :
  levelOk level →
  levelOk (childLevel level part)
  ∧ lookupProp (childLevel level part) (lit "path") = None.
Proof.
  intros Hlevel. unfold childLevel.
  destruct (lookupProp level part) as [[file|entries]|] eqn:Hpart;
    [by split; [constructor|]| |by split; [constructor|]].
  apply (levelOk_lookup _ _ _ Hlevel) in Hpart.
  inversion Hpart as [|? Hpath Hentries]; subst.
  unfold pathIn. rewrite bool_decide_false by (rewrite Hpath; by intros [? ?]).
  done.
Qed.

Lemma childLevel_entries (level entries : FileTree) (part : jsstring) :
  levelOk level → lookupProp level part = Some (Tree entries) →
  childLevel level part = entries ∧ levelOk entries.
Proof.
  intros Hlevel Hpart. unfold childLevel. rewrite Hpart.
  apply (levelOk_lookup _ _ _ Hlevel) in Hpart.
  inversion Hpart as [|? Hpath Hentries]; subst.
  unfold pathIn. rewrite bool_decide_false by (rewrite Hpath; by intros [? ?]).
  done.
Qed.

(** An insertion writes one key of the level it starts from. *)
Lemma lookupProp_insertFile (part : jsstring) (rest : list jsstring)
    (file : FilePlan) (level : FileTree) (k : jsstring) :
  part ≠ k →
  lookupProp (insertFile (part :: rest) file level) k = lookupProp level k.
Proof.
  intros Hk. destruct rest as [|part' rest].
  - rewrite insertFile_last. by apply lookupProp_setProp_ne.
  - rewrite insertFile_cons. by apply lookupProp_setProp_ne.
Qed.

Lemma insertFile_ok (parts : list jsstring) (file : FilePlan)
    (level : FileTree) :
  levelOk level → lit "path" ∉ tail parts →
  levelOk (insertFile parts file level).
Proof.
  revert level. induction parts as [|part rest IH]; intros level Hlevel Hpath;
    [done|].
  destruct rest as [|part' rest].
  - rewrite insertFile_last. apply levelOk_setProp; [done|constructor].
  - rewrite insertFile_cons. simpl in Hpath.
    destruct (childLevel_ok level part Hlevel) as [Hchild Hnone].
    apply levelOk_setProp; [done|]. constructor.
    + rewrite lookupProp_insertFile; [done|].
      intros ->. apply Hpath. by left.
    + apply IH; [done|]. simpl. intros Hin. apply Hpath. by right.
Qed.

Lemma nodeAt_head (k : jsstring) (q : list jsstring) (l1 l2 : FileTree) :
  lookupProp l1 k = lookupProp l2 k → nodeAt (k :: q) l1 = nodeAt (k :: q) l2.
Proof.
  intros Hk. destruct q as [|k' q].
  - by rewrite !nodeAt_last.
  - by rewrite !nodeAt_cons, Hk.
Qed.

(** An insertion keeps the files that are neither above nor below the
    inserted path. *)
Lemma nodeAt_insertFile_other (parts q : list jsstring) (file f : FilePlan)
    (level : FileTree) :
  levelOk level →
  nodeAt q level = Some (File f) →
  ¬ parts `prefix_of` q → ¬ q `prefix_of` parts →
  nodeAt q (insertFile parts file level) = Some (File f).
Proof.
  revert q level.
  induction parts as [|part rest IH]; intros q level Hlevel Hq Hpq Hqp.
  { destruct Hpq. apply prefix_nil. }
  destruct q as [|k q]; [done|].
  destruct (decide (part = k)) as [->|Hne].
  2:{ rewrite <- Hq. apply nodeAt_head. by apply lookupProp_insertFile. }
  destruct rest as [|part' rest].
  { destruct Hpq. apply prefix_cons, prefix_nil. }
  destruct q as [|k' q].
  { destruct Hqp. apply prefix_cons, prefix_nil. }
  rewrite nodeAt_cons in Hq.
  destruct (lookupProp level k) as [[?|entries]|] eqn:Hk; try done.
  destruct (childLevel_entries level entries k Hlevel Hk) as [Hchild Hentries].
  rewrite insertFile_cons, nodeAt_cons, lookupProp_setProp_eq, Hchild.
  apply IH; [done|done| |].
  - intros Hp. apply Hpq. by apply prefix_cons.
  - intros Hp. apply Hqp. by apply prefix_cons.
Qed.

Lemma insertAll_snoc (tree : FileTree) (files : list FilePlan)
    (file : FilePlan) :
  insertAll tree (files ++ [file])
  = insertFile (split "/" (path file)) file (insertAll tree files).
Proof. unfold insertAll. by rewrite foldl_snoc. Qed.

Lemma insertAll_ok (tree : FileTree) (files : list FilePlan) :
  levelOk tree →
  (∀ g, g ∈ files → lit "path" ∉ tail (split "/" (path g))) →
  levelOk (insertAll tree files).
Proof.
  intros Htree. induction files as [|g files IH] using rev_ind; [done|].
  intros Hpath. rewrite insertAll_snoc. apply insertFile_ok.
  - apply IH. intros g' Hg'. apply Hpath, elem_of_app. by left.
  - apply Hpath, elem_of_app. right. by apply list_elem_of_singleton.
Qed.

(** Two paths are apart when the segments of neither are the beginning of
    the segments of the other: the paths differ, and neither names a file
    where the other needs a directory. *)
Definition apart (p q : jsstring) : Prop :=
  ¬ split "/" q `prefix_of` split "/" p
  ∧ ¬ split "/" p `prefix_of` split "/" q.

Lemma nodeAt_insertAll_complete (tree : FileTree) (files : list FilePlan)
    (f : FilePlan) :
  levelOk tree →
  (∀ g, g ∈ files → lit "path" ∉ tail (split "/" (path g))) →
  f ∈ files →
  (∀ g, g ∈ files → g = f ∨ apart (path f) (path g)) →
  nodeAt (split "/" (path f)) (insertAll tree files) = Some (File f).
Proof.
  intros Htree. induction files as [|g files IH] using rev_ind.
  { intros _ Hf. by apply elem_of_nil in Hf. }
  intros Hpath Hf Hothers. rewrite insertAll_snoc.
  assert (g ∈ files ++ [g]) as Hg
    by (apply elem_of_app; right; by apply list_elem_of_singleton).
  destruct (Hothers g Hg) as [->|[Hgf Hfg]].
  { apply nodeAt_insertFile_eq, split_nonempty. }
  apply nodeAt_insertFile_other; [| |done|done].
  - apply insertAll_ok; [done|].
    intros g' Hg'. apply Hpath, elem_of_app. by left.
  - apply IH.
    + intros g' Hg'. apply Hpath, elem_of_app. by left.
    + apply elem_of_app in Hf as [Hf|Hf]; [done|].
      apply list_elem_of_singleton in Hf as ->.
      destruct Hgf. done.
    + intros g' Hg'. apply Hothers, elem_of_app. by left.
Qed.


Section Collation.

Variable localeCompare : jsstring → jsstring → comparison.

(** [localeCompare] is a consistent comparator. *)
Hypothesis localeCompare_antisym :
  ∀ p q, localeCompare q p = CompOpp (localeCompare p q).
Hypothesis localeCompare_trans :
  ∀ p q r,
    localeCompare p q ≠ Gt → localeCompare q r ≠ Gt → localeCompare p r ≠ Gt.







End Collation.


(** The soft hyphen, U+00AD. *)
Definition softHyphen : ascii := "173".

Definition withoutSoftHyphen (s : jsstring) : jsstring :=
  filter (λ c, c ≠ softHyphen) s.

(** A collation that gives the soft hyphen no weight, as the collations of
    the hosts do (the character is ignorable in the Unicode Collation
    Algorithm); on the other characters of the strings below it is the
    code unit order, with which the hosts agree on these strings. *)
Definition ignoringSoftHyphen (a b : jsstring) : comparison :=
  codeUnitCompare (withoutSoftHyphen a) (withoutSoftHyphen b).

Lemma ignoringSoftHyphen_antisym (a b : jsstring) :
  ignoringSoftHyphen b a = CompOpp (ignoringSoftHyphen a b).
Proof. apply codeUnitCompare_antisym. Qed.

Lemma ignoringSoftHyphen_trans (a b c : jsstring) :
  ignoringSoftHyphen a b ≠ Gt → ignoringSoftHyphen b c ≠ Gt →
  ignoringSoftHyphen a c ≠ Gt.
Proof. apply codeUnitCompare_trans. Qed.




End PathTreeFacts.

(** ** Properties of the initial generation *)

Module GenerationFacts.
Import Generation.



Section Handler.

Variable generateAppPlan : jsstring → Outcome AppPlan.
Variable generateFileCodeStream : nat → AppPlan → FilePlan → Outcome StreamAnswer.
Variable reviewCode : gmap jsstring jsstring → Outcome StructuredReview.
Variable storageAccepts : bool.
Variable dateNow : Z.
Variable isoNow : jsstring.








End Handler.





End GenerationFacts.

(** ** Properties of the archive import *)

Module ImportingFacts.
Import Review ReviewFacts Importing.

Lemma importFailed_error (message : jsstring) (st : ImportState) :
  importError (importFailed message st) ≠ None.
Proof. done. Qed.

Section Handler.

Variable jsonParse : jsstring → Outcome jsval.
Variable analyzeImportedProject : gmap jsstring jsstring → Outcome jsval.
Variable storageAccepts : bool.
Variable dateNow : Z.
Variable isoNow : jsstring.
Variable coercedPositive : jsval → bool.

Abbreviation stamped := (stamp dateNow isoNow).
Abbreviation finished := (importDone storageAccepts).

Lemma stamp_id (props : list (jsstring * jsval)) :
  lookupProp (stamped props) (lit "id")
  = Some (JStr (lit "proj_" ++ lit (pretty dateNow))).
Proof.
  unfold stamp. rewrite lookupProp_setProp_ne by done.
  apply lookupProp_setProp_eq.
Qed.

Lemma stamp_createdAt (props : list (jsstring * jsval)) :
  lookupProp (stamped props) (lit "createdAt") = Some (JStr isoNow).
Proof. unfold stamp. apply lookupProp_setProp_eq. Qed.

Lemma stamp_other (props : list (jsstring * jsval)) (key : jsstring) :
  key ≠ lit "id" → key ≠ lit "createdAt" →
  lookupProp (stamped props) key = lookupProp props key.
Proof.
  intros H1 H2. unfold stamp. by rewrite !lookupProp_setProp_ne.
Qed.

(** A successful import without [project.json]. *)
Lemma importInferred_success (zip : list ZipEntry) (st : ImportState) :
  importError st = None →
  importError (importInferred analyzeImportedProject storageAccepts dateNow
                 isoNow zip st) = None →
  ∃ analysis plan,
    analyzeImportedProject (rawFiles zip) = Returned analysis
    ∧ memberOf analysis (lit "plan") = Returned plan
    ∧ importInferred analyzeImportedProject storageAccepts dateNow isoNow
        zip st
      = finished (JObj (stamped
                      [ (lit "plan", plan);
                        (lit "review", getMember analysis (lit "review"));
                        (lit "files", filesObject (rawFiles zip));
                        (lit "prompt", JStr importedPrompt) ])) st.
Proof.
  intros Hst. unfold importInferred. case_bool_decide; [done|].
  destruct (analyzeImportedProject (rawFiles zip)) as [analysis|m] eqn:Han;
    [|done].
  destruct (memberOf analysis (lit "plan")) as [plan|m] eqn:Hplan; [|done].
  intros _. by exists analysis, plan.
Qed.

(** A successful import with [project.json]. *)
Lemma importWithMetadata_success (zip : list ZipEntry)
    (projectJsonPaths : list jsstring) (st : ImportState) :
  importError st = None →
  importError (importWithMetadata jsonParse storageAccepts dateNow isoNow
                 coercedPositive zip projectJsonPaths st) = None →
  ∃ projectJsonPath rest metadataFile metadata review rootDir,
    JsArray.sort compareDepth projectJsonPaths = projectJsonPath :: rest
    ∧ zipFile zip projectJsonPath = Some metadataFile
    ∧ jsonParse (content metadataFile) = Returned metadata
    ∧ memberOf metadata (lit "review") = Returned review
    ∧ importWithMetadata jsonParse storageAccepts dateNow isoNow
        coercedPositive zip projectJsonPaths st
      = finished (JObj (stamped
                      (setProp
                         (setProp (ownProps metadata) (lit "review")
                            (ensureStructuredReview review))
                         (lit "files")
                         (filesObject
                            (projectFiles zip rootDir projectJsonPath))))) st.
Proof.
  intros Hst. unfold importWithMetadata.
  destruct (JsArray.sort compareDepth projectJsonPaths)
    as [|projectJsonPath rest]; [done|].
  destruct (zipFile zip projectJsonPath) as [metadataFile|] eqn:Hfile;
    [|done].
  destruct (jsonParse (content metadataFile)) as [metadata|m] eqn:Hparse;
    [|done].
  cbv zeta.
  match goal with |- context [projectFiles zip ?r projectJsonPath] =>
    set (rootDir := r) end.
  destruct (if bool_decide (size (projectFiles zip rootDir projectJsonPath) = 0)
            then planListsFiles coercedPositive metadata
            else Returned false) as [[|]|m]; [done| |done].
  destruct (memberOf metadata (lit "review")) as [review|m] eqn:Hr; [|done].
  intros _. by exists projectJsonPath, rest, metadataFile, metadata, review,
    rootDir.
Qed.

(** C10.  An import that ends without an error has built a project whose
    [id] is [proj_] followed by the reading of the clock and whose
    [createdAt] is the time of the import, whatever [project.json] holds
    under these keys.  When the archive has a [project.json] that holds an
    object, the [prompt] and the [plan] of the project are those of the
    object and its [review] is the normalised review of the object; when
    the archive has none, [plan] and [review] are those of the analysis and
    the [prompt] is the fixed text of an imported project. *)
Theorem import_assigns_fresh_identity (zip : list ZipEntry)
    (st : ImportState) :
  let st' :=
    handleImportProject jsonParse analyzeImportedProject storageAccepts
      dateNow isoNow coercedPositive zip st in
  importError st' = None →
  ∃ newProject,
    savedProjects st'
    = (if storageAccepts then savedProjects st ++ [newProject]
       else savedProjects st)
    ∧ getMember newProject (lit "id")
      = JStr (lit "proj_" ++ lit (pretty dateNow))
    ∧ getMember newProject (lit "createdAt") = JStr isoNow
    ∧ (∀ projectJsonPath rest metadataFile props,
         JsArray.sort compareDepth (List.filter isProjectJson (name <$> zip))
         = projectJsonPath :: rest →
         zipFile zip projectJsonPath = Some metadataFile →
         jsonParse (content metadataFile) = Returned (JObj props) →
         getMember newProject (lit "prompt")
         = getMember (JObj props) (lit "prompt")
         ∧ getMember newProject (lit "plan")
           = getMember (JObj props) (lit "plan")
         ∧ getMember newProject (lit "review")
           = ensureStructuredReview (getMember (JObj props) (lit "review")))
    ∧ (List.filter isProjectJson (name <$> zip) = [] →
       ∃ analysis,
         analyzeImportedProject (rawFiles zip) = Returned analysis
         ∧ getMember newProject (lit "prompt") = JStr importedPrompt
         ∧ getMember newProject (lit "plan") = getMember analysis (lit "plan")
         ∧ getMember newProject (lit "review")
           = getMember analysis (lit "review")).
Proof.
  intros st'. subst st'. unfold handleImportProject.
  set (st0 := {| savedProjects := savedProjects st; importError := None;
                 infoMessage := None |}).
  destruct (List.filter isProjectJson (name <$> zip)) as [|p0 ps] eqn:Hpaths.
  - intros Herr.
    destruct (importInferred_success zip st0 eq_refl Herr)
      as (analysis & plan & Han & Hplan & ->).
    eexists. split; [reflexivity|]. cbn [getMember].
    rewrite stamp_id, stamp_createdAt. split; [done|]. split; [done|].
    split.
    { intros ? ? ? ? Hsort. by vm_compute in Hsort. }
    intros _. exists analysis. split; [done|].
    rewrite !stamp_other by done. simpl.
    split; [done|]. split; [|done].
    destruct analysis; simpl in Hplan; by try injection Hplan as <-.
  - intros Herr.
    destruct (importWithMetadata_success zip (p0 :: ps) st0 eq_refl Herr)
      as (pj & rest & mf & metadata & review & rootDir
          & Hsort & Hfile & Hparse & Hreview & ->).
    eexists. split; [reflexivity|]. cbn [getMember].
    rewrite stamp_id, stamp_createdAt. split; [done|]. split; [done|].
    split; [|done].
    intros pj' rest' mf' props Hsort' Hfile' Hparse'.
    rewrite Hsort in Hsort'. injection Hsort' as <- <-.
    rewrite Hfile in Hfile'. injection Hfile' as <-.
    rewrite Hparse in Hparse'. injection Hparse' as ->.
    injection Hreview as <-.
    rewrite !stamp_other by done.
    rewrite !(lookupProp_setProp_ne _ (lit "files")) by done.
    rewrite !(lookupProp_setProp_ne _ (lit "review") (lit "prompt")) by done.
    rewrite !(lookupProp_setProp_ne _ (lit "review") (lit "plan")) by done.
    rewrite lookupProp_setProp_eq. done.
Qed.

End Handler.

(** An archive whose [project.json], in the folder [demo/], carries an old
    [id], an old [createdAt] and a review in the legacy shape. *)
Definition sampleZip : list ZipEntry :=
  [ {| name := lit "demo/"; dir := true; content := [] |};
    {| name := lit "demo/project.json"; dir := false;
       content := lit "{ the metadata }" |};
    {| name := lit "demo/app/Main.java"; dir := false;
       content := lit "class Main {}" |} ].

Definition sampleMetadata : jsval :=
  JObj [ (lit "id", JStr (lit "proj_1"));
         (lit "prompt", JStr (lit "a note taking app"));
         (lit "plan", JObj [ (lit "appName", JStr (lit "Notes"));
                             (lit "fileStructure", JArr []) ]);
         (lit "review", JStr (lit "Looks fine"));
         (lit "createdAt", JStr (lit "2020-01-01T00:00:00.000Z")) ].

Definition sampleParse (text : jsstring) : Outcome jsval :=
  Returned sampleMetadata.

Definition noAnalysis (importedFiles : gmap jsstring jsstring)
    : Outcome jsval :=
  Threw (lit "not reached").

Definition importStart : ImportState :=
  {| savedProjects := []; importError := None; infoMessage := None |}.

Lemma import_assigns_fresh_identity_witness :
  ∃ newProject,
    savedProjects
      (handleImportProject sampleParse noAnalysis true 1700000000000
         (lit "2023-11-14T22:13:20.000Z") (λ _, false) sampleZip importStart)
    = [newProject]
    ∧ getMember newProject (lit "id") = JStr (lit "proj_1700000000000")
    ∧ getMember newProject (lit "createdAt")
      = JStr (lit "2023-11-14T22:13:20.000Z")
    ∧ getMember newProject (lit "prompt") = JStr (lit "a note taking app")
    ∧ getMember newProject (lit "review") = legacyReview (lit "Looks fine").
Proof.
  destruct (import_assigns_fresh_identity sampleParse noAnalysis true
              1700000000000 (lit "2023-11-14T22:13:20.000Z") (λ _, false)
              sampleZip importStart ltac:(vm_compute; reflexivity))
    as (np & Hs & Hid & Hc & Hmeta & _).
  exists np. split; [exact Hs|]. split; [exact Hid|]. split; [exact Hc|].
  destruct (Hmeta (lit "demo/project.json") []
              {| name := lit "demo/project.json"; dir := false;
                 content := lit "{ the metadata }" |}
              _ ltac:(vm_compute; reflexivity) eq_refl eq_refl)
    as (Hprompt & _ & Hreview).
  split; [exact Hprompt|exact Hreview].
Defined.

(** Example 5 of the specification: no [project.json], one folder entry
    and two files.  The two files are read and the analysis is asked. *)
Definition plainZip : list ZipEntry :=
  [ {| name := lit "src/"; dir := true; content := [] |};
    {| name := lit "src/Main.java"; dir := false;
       content := lit "class Main {}" |};
    {| name := lit "build.gradle"; dir := false;
       content := lit "plugins {}" |} ].

Example plain_archive_reads_two_files :
  List.filter isProjectJson (name <$> plainZip) = []
  ∧ rawFiles plainZip
    = <[ lit "build.gradle" := lit "plugins {}" ]>
        {[ lit "src/Main.java" := lit "class Main {}" ]}.
Proof.
  split; [reflexivity|]. apply map_eq. intros k.
  destruct (decide (k = lit "build.gradle")) as [->|H1]; [reflexivity|].
  destruct (decide (k = lit "src/Main.java")) as [->|H2]; [reflexivity|].
  unfold rawFiles, plainZip. simpl.
  rewrite !lookup_insert_ne by done. by rewrite lookup_singleton_ne.
Qed.

End ImportingFacts.

(** ** Further properties of the streaming parser *)

Module ParserExtras.
Import Modification JsStringFacts ParserFacts StreamingFacts Samples.

(** A string without white space at either end. *)
Definition trimmed (s : jsstring) : Prop :=
  (∀ c r, s = c :: r → isWhiteSpace c = false)
  ∧ (∀ c r, s = r ++ [c] → isWhiteSpace c = false).

Lemma trimStart_suffix (s : jsstring) :
  ∃ w, s = w ++ trimStart s.
Proof.
  induction s as [|c s [w IH]]; [by exists []|]. simpl.
  destruct (isWhiteSpace c); [|by exists []].
  exists (c :: w). simpl. by rewrite <- IH.
Qed.

Lemma trimStart_fixed (s : jsstring) :
  (∀ c r, s = c :: r → isWhiteSpace c = false) → trimStart s = s.
Proof.
  destruct s as [|c s]; [done|]. intros H. simpl.
  by rewrite (H c s eq_refl).
Qed.

Lemma trim_trimmed (s : jsstring) : trimmed (trim s).
Proof.
  unfold trim, trimEnd. set (t := trimStart s).
  set (u := trimStart (reverse t)). split.
  - intros c r Hcr.
    assert (u = reverse r ++ [c]) as Hu.
    { apply (f_equal reverse) in Hcr.
      by rewrite reverse_involutive, reverse_cons in Hcr. }
    destruct (trimStart_suffix (reverse t)) as [w Hw]. fold u in Hw.
    rewrite Hu, app_assoc in Hw. apply (f_equal reverse) in Hw.
    rewrite reverse_involutive, reverse_snoc in Hw.
    by apply (trimStart_head s c (reverse (w ++ reverse r))).
  - intros c r Hcr.
    assert (u = c :: reverse r) as Hu.
    { apply (f_equal reverse) in Hcr.
      by rewrite reverse_involutive, reverse_snoc in Hcr. }
    by apply (trimStart_head (reverse t) c (reverse r)).
Qed.

Lemma trim_fixed (s : jsstring) : trimmed s → trim s = s.
Proof.
  intros [Hhead Hlast]. unfold trim, trimEnd.
  rewrite (trimStart_fixed s Hhead).
  rewrite trimStart_fixed; [apply reverse_involutive|].
  intros c r Hcr. apply (Hlast c (reverse r)).
  apply (f_equal reverse) in Hcr.
  by rewrite reverse_involutive, reverse_cons in Hcr.
Qed.

Lemma whileLoop_trimmed (n : nat) (loc loc' : Locals) (a a' : option Project) :
  Forall (λ pc, trimmed pc.1 ∧ trimmed pc.2) (completed loc) →
  whileLoop n loc a = Some (loc', a') →
  Forall (λ pc, trimmed pc.1 ∧ trimmed pc.2) (completed loc').
Proof.
  revert loc a. induction n as [|n IH]; intros loc a Hc; [done|].
  simpl. destruct (scan (buffer loc)) as [| |pa pc|pa code rest] eqn:Hs;
    try (by intros [= <- <-]).
  apply IH. simpl. apply Forall_app. split; [done|].
  apply scan_closed_inv in Hs as (? & ? & ? & _ & _ & _ & -> & -> & _).
  repeat constructor; apply trim_trimmed.
Qed.

Lemma forAwait_trimmed (texts : list jsstring)
    (s s' : Locals * option Project) :
  Forall (λ pc, trimmed pc.1 ∧ trimmed pc.2) (completed s.1) →
  forAwait texts s = Some s' →
  Forall (λ pc, trimmed pc.1 ∧ trimmed pc.2) (completed s'.1).
Proof.
  revert s. induction texts as [|t texts IH]; intros s Hc; simpl.
  - by intros [= <-].
  - destruct (onChunk t s) as [[loc1 a1]|] eqn:H1; [|done]. simpl.
    apply IH. simpl. unfold onChunk in H1.
    eapply whileLoop_trimmed; [|exact H1]. exact Hc.
Qed.

(** X1.  Whatever the stream holds and however it is cut, the path and the
    content of every completed file are stored without white space at
    either end, and trimming them again changes nothing. *)
Theorem completed_files_are_trimmed (texts : list jsstring)
    (active : option Project) :
  ∃ s, forAwait texts (initialLocals, active) = Some s
    ∧ Forall (λ pc, trimmed pc.1 ∧ trimmed pc.2
                    ∧ trim pc.1 = pc.1 ∧ trim pc.2 = pc.2)
        (completed s.1).
Proof.
  destruct (forAwait_total texts (initialLocals, active)) as [s Hs].
  exists s. split; [done|].
  pose proof (forAwait_trimmed texts (initialLocals, active) s
                (Forall_nil_2 _) Hs) as H.
  eapply Forall_impl; [exact H|]. intros [p c] [Hp Hc]. simpl in *.
  by rewrite !trim_fixed.
Qed.











Lemma forAwait_no_marker (texts : list jsstring) (loc : Locals)
    (a : option Project) :
  firstOccurrence startDelimiter (buffer loc ++ concat texts) = None →
  forAwait texts (loc, a)
  = Some (withBuffer (buffer loc ++ concat texts) loc, a).
Proof.
  revert loc. induction texts as [|t texts IH]; intros loc H.
  - simpl. by rewrite app_nil_r, withBuffer_same.
  - cbn [concat] in H. rewrite app_assoc in H.
    assert (onChunk t (loc, a) = Some (withBuffer (buffer loc ++ t) loc, a))
      as Hone.
    { unfold onChunk. cbn [fst snd whileLoop].
      change (buffer (withBuffer (buffer loc ++ t) loc))
        with (buffer loc ++ t).
      unfold scan.
      destruct (indexOf (buffer loc ++ t) startDelimiter 0) as [i|] eqn:Hi;
        [|done].
      apply indexOf_zero_Some in Hi.
      apply (firstOccurrence_app _ _ (concat texts)) in Hi. congruence. }
    cbn [forAwait]. rewrite Hone. cbn [mbind option_bind].
    rewrite IH by done. cbn [concat buffer withBuffer].
    by rewrite <- app_assoc.
Qed.

(** X3.  As long as the text received holds no header marker, nothing is
    completed, nothing is written to the active project, and the whole
    text is kept in the buffer for the fragments to come. *)
Theorem text_without_marker_is_retained (texts : list jsstring)
    (active : option Project) :
  firstOccurrence startDelimiter (concat texts) = None →
  forAwait texts (initialLocals, active)
  = Some (withBuffer (concat texts) initialLocals, active).
Proof. intros H. by apply (forAwait_no_marker texts initialLocals). Qed.

Lemma text_without_marker_is_retained_witness :
  forAwait (chunks commentaryStream) (initialLocals, None)
  = Some (withBuffer (lit "Sorry, I cannot change this project.")
            initialLocals, None).
Proof.
  apply (text_without_marker_is_retained (chunks commentaryStream) None).
  reflexivity.
Defined.

End ParserExtras.

(** ** Further properties of [handleModification] and [analyzeChanges] *)

Module ModificationExtras.
Import Modification Reconciler ReconcilerFacts JsStringFacts ParserFacts
  StreamingFacts Samples.

(** X4.  The streaming loop writes nothing but the [files] of the active
    project: its id, prompt, plan, review and creation time after any
    stream are those it started with, and a project is still open. *)
Theorem streaming_only_writes_files (texts : list jsstring) (loc : Locals)
    (p : Project) :
  ∃ loc' q,
    forAwait texts (loc, Some p) = Some (loc', Some q)
    ∧ projectId q = projectId p
    ∧ prompt q = prompt p
    ∧ plan q = plan p
    ∧ review q = review p
    ∧ createdAt q = createdAt p.
Proof.
  destruct (forAwait_total texts (loc, Some p)) as [[loc' a'] Hf].
  destruct (forAwait_active _ _ _ _ _ _ (sameButFiles_refl p) Hf)
    as (q & -> & Hq).
  exists loc', q. split; [done|]. unfold sameButFiles in Hq.
  rewrite <- Hq. done.
Qed.

Section Handler.

Variable modifyCodeStream : Outcome StreamAnswer.
Variable analyzeChanges :
  gmap jsstring jsstring → gmap jsstring jsstring →
  Outcome (StructuredReview * jsstring).
Variable storageAccepts : bool.

(** X5.  A modification that succeeds (ends without an error) never
    removes a file: the committed files are the files of before the
    attempt, with the content of each file the stream completed put in
    place or added; id, prompt, plan and creation time are kept, the change
    summary is set, and in the saved list only projects with the id of the
    active project are replaced. *)
Theorem successful_modification_merges_files (modificationPrompt : jsstring)
    (ap : Project) (ps : list Project) (st st' : AppState) :
  activeProject st = Some ap →
  runModification modifyCodeStream analyzeChanges storageAccepts
    modificationPrompt ap ps st = Some st' →
  error st' = None →
  ∃ stream loc a p',
    modifyCodeStream = Returned stream
    ∧ forAwait (chunks stream) (initialLocals, Some (withReview emptyReview ap))
      = Some (loc, a)
    ∧ activeProject st' = Some p'
    ∧ (∀ k, files p' !! k
            = match updatedFiles loc !! k with
              | Some code => Some code
              | None => files ap !! k
              end)
    ∧ dom (files ap) ⊆ dom (files p')
    ∧ projectId p' = projectId ap ∧ prompt p' = prompt ap
    ∧ plan p' = plan ap ∧ createdAt p' = createdAt ap
    ∧ is_Some (changeSummary st')
    ∧ (storageAccepts = true →
       length (projects st') = length ps
       ∧ ∀ i q, ps !! i = Some q →
           projects st' !! i
           = Some (if decide (projectId q = projectId ap) then p' else q)).
Proof.
  intros Hst Hrun Herr. unfold runModification in Hrun.
  destruct modifyCodeStream as [stream|message]; [|by injection Hrun as <-].
  assert (activeProject
            (logCall (CallModifyCodeStream modificationPrompt ap)
               (setActiveProject (fmap (withReview emptyReview))
                  (setChangeSummary None (setError None st))))
          = Some (withReview emptyReview ap)) as Hstart
    by (simpl; by rewrite Hst).
  rewrite Hstart in Hrun.
  destruct (forAwait (chunks stream)
              (initialLocals, Some (withReview emptyReview ap)))
    as [[loc a]|] eqn:Hf; [|done].
  cbn [mbind option_bind fst snd] in Hrun.
  destruct (failure stream); [by injection Hrun as <-|].
  destruct (_ && _); [by injection Hrun as <-|].
  destruct (analyzeChanges _ _) as [[r sm]|m]; [|by injection Hrun as <-].
  injection Hrun as <-.
  exists stream, loc, a,
    (withReview r (withFiles (updatedFiles loc ∪ files ap) ap)).
  split; [done|]. split; [done|]. split; [done|]. split.
  { intros k. simpl. rewrite lookup_union.
    destruct (updatedFiles loc !! k), (files ap !! k); done. }
  split.
  { simpl. rewrite dom_union_L. set_solver. }
  do 4 (split; [done|]). split; [by eexists|].
  intros ->. simpl. split; [by rewrite length_fmap|].
  intros i q Hq. rewrite list_lookup_fmap, Hq. done.
Qed.

(** X6.  Without an open project, or with no suggestion selected and a
    blank custom request, or when none of the selected ids is the id of a
    suggestion of the review and the custom request is blank, the handler
    leaves the state as it is and calls nothing. *)
Theorem handleModification_without_request
    (selectedSuggestions : gset jsstring) (customModificationPrompt : jsstring)
    (st : AppState) :
  activeProject st = None
  ∨ trim customModificationPrompt = []
    ∧ (size selectedSuggestions = 0
       ∨ ∀ ap s, activeProject st = Some ap →
           s ∈ crashBugs (review ap) ++ uiUxImprovements (review ap)
               ++ otherSuggestions (review ap) →
           suggestionId s ∉ selectedSuggestions) →
  handleModification modifyCodeStream analyzeChanges storageAccepts
    selectedSuggestions customModificationPrompt st = Some st.
Proof.
  unfold handleModification. intros [Hnone|[Hblank Hsel]].
  { by rewrite Hnone. }
  destruct (activeProject st) as [ap|] eqn:Hap; [|done].
  rewrite (bool_decide_eq_true_2 _ Hblank), andb_true_r.
  case_bool_decide as Hsize; [done|].
  destruct Hsel as [Hsel|Hsel]; [done|].
  unfold modificationPromptOf. rewrite Hblank.
  assert (filter (λ s, suggestionId s ∈ selectedSuggestions)
            (crashBugs (review ap) ++ uiUxImprovements (review ap)
             ++ otherSuggestions (review ap)) = []) as ->; [|done].
  match goal with |- ?found = [] => destruct found as [|s rest] eqn:Hl end;
    [done|].
  assert (s ∈ s :: rest) as Hin by left. rewrite <- Hl in Hin.
  apply list_elem_of_filter in Hin as [Hs Hin].
  by destruct (Hsel ap s eq_refl Hin).
Qed.

End Handler.

Lemma successful_modification_merges_files_witness :
  ∃ st' p',
    runModification
      (Returned {| chunks := [ lit "--FILE_START: B.java--class B {}";
                               lit "--FILE_END--" ];
                   failure := None |})
      analysisAnswers true samplePrompt sampleProject [sampleProject]
      sampleState = Some st'
    ∧ activeProject st' = Some p'
    ∧ files p' !! lit "A.java" = Some (lit "old")
    ∧ files p' !! lit "B.java" = Some (lit "class B {}")
    ∧ projects st' = [p'].
Proof.
  set (answer := Returned {| chunks := [ lit "--FILE_START: B.java--class B {}";
                                         lit "--FILE_END--" ];
                             failure := None |}).
  destruct (runModification answer analysisAnswers true samplePrompt
              sampleProject [sampleProject] sampleState) as [st'|] eqn:Hrun;
    [|by vm_compute in Hrun].
  destruct (successful_modification_merges_files answer analysisAnswers true
              samplePrompt sampleProject [sampleProject] sampleState st'
              eq_refl Hrun)
    as (stream & loc & a & p' & Hs & Hf & Hp' & Hfiles & _ & _ & _ & _ & _
        & _ & Hsaved).
  { vm_compute in Hrun. by injection Hrun as <-. }
  injection Hs as <-. vm_compute in Hf. injection Hf as <- <-.
  exists st', p'. split; [done|]. split; [done|].
  split; [rewrite Hfiles; vm_compute; reflexivity|].
  split; [rewrite Hfiles; vm_compute; reflexivity|].
  destruct (Hsaved eq_refl) as [Hlen Hall].
  specialize (Hall 0 sampleProject eq_refl). rewrite decide_True in Hall by done.
  clear Hrun Hfiles Hsaved Hp'.
  destruct (projects st') as [|q [|q' qs]]; [done| |done].
  by injection Hall as ->.
Defined.

Lemma handleModification_without_request_witness :
  handleModification (Returned brokenStream) analysisAnswers true
    {[ lit "no-such-suggestion" ]} (lit "  ") sampleState
  = Some sampleState.
Proof.
  apply handleModification_without_request. right. split; [reflexivity|].
  right. intros ap s [= <-] Hs. vm_compute in Hs.
  apply elem_of_cons in Hs as [->|Hs]; [|by apply elem_of_nil in Hs].
  simpl. rewrite elem_of_singleton. discriminate.
Defined.

(** X7.  Identical snapshots report no changed file, and the part of the
    review request that shows the files before the change is then the
    sentence that says so. *)
Theorem identical_snapshots_report_nothing
    (snapshot : gmap jsstring jsstring) :
  changedPaths snapshot snapshot = ∅
  ∧ oldFilesContent snapshot snapshot
    = lit "No files were changed. This was likely an addition of new files.".
Proof.
  assert (modifiedBefore snapshot snapshot = ∅) as Hempty.
  { apply map_empty. intros p. unfold modifiedBefore.
    apply map_lookup_filter_None. right. intros v Hv. simpl.
    unfold isModified. rewrite bool_decide_true by done.
    by rewrite andb_false_r. }
  split.
  - unfold changedPaths. rewrite Hempty. apply dom_empty_L.
  - unfold oldFilesContent. rewrite Hempty, map_to_list_empty. reflexivity.
Qed.

(** X8.  In a modification, where the new snapshot is the old files
    overlaid with the files the stream completed, a path is reported as
    changed exactly when it was a file before, the stream completed it,
    and its new content is not empty and differs from the old one; a file
    the stream added is never reported. *)
Theorem changed_paths_of_a_modification
    (oldFiles updatedFiles : gmap jsstring jsstring) (p : jsstring) :
  p ∈ changedPaths oldFiles (updatedFiles ∪ oldFiles) ↔
  ∃ before after,
    oldFiles !! p = Some before ∧ updatedFiles !! p = Some after
    ∧ after ≠ before ∧ after ≠ [].
Proof.
  rewrite elem_of_changedPaths. split.
  - intros (b & a & Hb & Ha & Hne & Hnil). exists b, a.
    rewrite lookup_union in Ha.
    destruct (updatedFiles !! p) as [u|] eqn:Hu.
    + rewrite Hb in Ha. simpl in Ha. injection Ha as <-. done.
    + rewrite Hb in Ha. simpl in Ha. injection Ha as <-. done.
  - intros (b & a & Hb & Ha & Hne & Hnil). exists b, a.
    split; [done|]. split; [|done].
    by rewrite lookup_union, Ha, Hb.
Qed.

End ModificationExtras.

(** ** Further properties of the archive import *)

Module ImportingExtras.
Import Review ReviewFacts JsArray JsArrayFacts JsStringFacts Importing
  ImportingFacts.

Lemma startsWith_prefix (s search : jsstring) :
  startsWith s search = true ↔ ∃ t, s = search ++ t.
Proof.
  revert s. induction search as [|c search IH]; intros s; simpl.
  - split; [intros _; by exists s|by destruct s].
  - destruct s as [|d s].
    + split; [done|]. by intros [t Ht].
    + cbn [startsWith]. case_bool_decide as Hcd; simpl.
      * subst d. rewrite IH. split.
        -- intros [t ->]. by exists t.
        -- intros [t [= ->]]. by exists t.
      * split; [done|]. intros [t [= -> ->]]. done.
Qed.

Lemma rawFiles_snoc (zip : list ZipEntry) (e : ZipEntry) :
  rawFiles (zip ++ [e])
  = if negb (dir e) && negb (startsWith (name e) macPrefix)
    then <[name e := content e]> (rawFiles zip)
    else rawFiles zip.
Proof. unfold rawFiles. by rewrite foldl_snoc. Qed.

Lemma projectFiles_snoc (zip : list ZipEntry) (rootDir projectJsonPath : jsstring)
    (e : ZipEntry) :
  projectFiles (zip ++ [e]) rootDir projectJsonPath
  = if startsWith (name e) rootDir && negb (dir e)
       && negb (bool_decide (name e = projectJsonPath))
       && negb (startsWith (name e) macPrefix)
    then
      match substringFrom (name e) (length rootDir) with
      | [] => projectFiles zip rootDir projectJsonPath
      | projectFilePath =>
          <[projectFilePath := content e]>
            (projectFiles zip rootDir projectJsonPath)
      end
    else projectFiles zip rootDir projectJsonPath.
Proof. unfold projectFiles. by rewrite foldl_snoc. Qed.

(** X9.  Without a [project.json], the import reads the files of the
    archive and nothing else: a path is imported exactly when the archive
    has a file entry (not a folder) of that name and the name does not
    start with [__MACOSX/], and its content is that of such an entry. *)
Theorem raw_import_reads_files_only (zip : list ZipEntry) (p : jsstring) :
  (∀ c, rawFiles zip !! p = Some c →
     ∃ e, e ∈ zip ∧ name e = p ∧ content e = c ∧ dir e = false)
  ∧ (is_Some (rawFiles zip !! p) ↔
     startsWith p macPrefix = false
     ∧ ∃ e, e ∈ zip ∧ name e = p ∧ dir e = false).
Proof.
  induction zip as [|e zip [IH1 IH2]] using rev_ind.
  - change (rawFiles []) with (∅ : gmap jsstring jsstring). split.
    + intros c Hc. by rewrite lookup_empty in Hc.
    + rewrite lookup_empty. split; [by intros [? ?]|].
      intros (_ & e & He & _). by apply elem_of_nil in He.
  - rewrite rawFiles_snoc.
    destruct (dir e) eqn:Hdir; simpl.
    { split.
      - intros c Hc. destruct (IH1 c Hc) as (e' & He' & H').
        exists e'. split; [|done]. apply elem_of_app. by left.
      - rewrite IH2. split; intros (Hm & e' & He' & Hn & Hd).
        + split; [done|]. exists e'. split; [|done]. apply elem_of_app. by left.
        + split; [done|]. exists e'. split; [|done].
          apply elem_of_app in He' as [He'|He']; [done|].
          apply list_elem_of_singleton in He' as ->. congruence. }
    destruct (startsWith (name e) macPrefix) eqn:Hmac; simpl.
    { split.
      - intros c Hc. destruct (IH1 c Hc) as (e' & He' & H').
        exists e'. split; [|done]. apply elem_of_app. by left.
      - rewrite IH2. split; intros (Hm & e' & He' & Hn & Hd).
        + split; [done|]. exists e'. split; [|done]. apply elem_of_app. by left.
        + split; [done|]. exists e'. split; [|done].
          apply elem_of_app in He' as [He'|He']; [done|].
          apply list_elem_of_singleton in He' as ->. congruence. }
    destruct (decide (name e = p)) as [<-|Hne].
    + rewrite lookup_insert_eq. split.
      * intros c [= <-]. exists e. split; [|done].
        apply elem_of_app. right. by apply list_elem_of_singleton.
      * split; [|by eexists]. intros _. split; [done|].
        exists e. split; [|done].
        apply elem_of_app. right. by apply list_elem_of_singleton.
    + rewrite lookup_insert_ne by done. split.
      * intros c Hc. destruct (IH1 c Hc) as (e' & He' & H').
        exists e'. split; [|done]. apply elem_of_app. by left.
      * rewrite IH2. split; intros (Hm & e' & He' & Hn & Hd).
        -- split; [done|]. exists e'. split; [|done].
           apply elem_of_app. by left.
        -- split; [done|]. exists e'. split; [|done].
           apply elem_of_app in He' as [He'|He']; [done|].
           apply list_elem_of_singleton in He' as ->. congruence.
Qed.

Lemma raw_import_reads_files_only_witness :
  is_Some (rawFiles plainZip !! lit "build.gradle")
  ∧ rawFiles plainZip !! lit "src/" = None.
Proof.
  destruct (raw_import_reads_files_only plainZip (lit "build.gradle"))
    as [_ Hfile].
  destruct (raw_import_reads_files_only plainZip (lit "src/"))
    as [_ Hfolder].
  split.
  - apply Hfile. split; [reflexivity|]. eexists.
    split; [right; right; left|done].
  - apply eq_None_not_Some. intros Hsome.
    apply Hfolder in Hsome as (_ & e & He & Hname & Hdir).
    unfold plainZip in He.
    repeat (apply elem_of_cons in He as [->|He]; [done|]).
    by apply elem_of_nil in He.
Defined.

(** What the loop over the archive does with one entry below the folder
    [rootDir]: it files the entry under the rest of its name, or leaves the
    files as they are. *)
Lemma projectFiles_step (zip : list ZipEntry) (rootDir projectJsonPath : jsstring)
    (e : ZipEntry) :
  (∃ k, name e = rootDir ++ k ∧ k ≠ [] ∧ dir e = false
        ∧ name e ≠ projectJsonPath
        ∧ startsWith (name e) macPrefix = false
        ∧ projectFiles (zip ++ [e]) rootDir projectJsonPath
          = <[k := content e]> (projectFiles zip rootDir projectJsonPath))
  ∨ (projectFiles (zip ++ [e]) rootDir projectJsonPath
     = projectFiles zip rootDir projectJsonPath
     ∧ ∀ k, name e = rootDir ++ k → k ≠ [] → dir e = false →
         name e ≠ projectJsonPath →
         startsWith (name e) macPrefix = false → False).
Proof.
  rewrite projectFiles_snoc.
  destruct (startsWith (name e) rootDir) eqn:Hroot; simpl.
  2:{ right. split; [done|]. intros k Hk _ _ _ _.
      assert (startsWith (name e) rootDir = true) as Ht
        by (apply startsWith_prefix; by exists k).
      congruence. }
  apply startsWith_prefix in Hroot as [t Ht].
  destruct (dir e) eqn:Hdir; simpl; [by right|].
  case_bool_decide as Hpj; simpl; [by right|].
  destruct (startsWith (name e) macPrefix) eqn:Hmac; simpl; [by right|].
  unfold substringFrom. rewrite Ht, drop_app_length.
  destruct t as [|c t].
  - right. split; [done|]. intros k Hk Hne _ _ _.
    apply app_inv_head in Hk. by subst k.
  - left. exists (c :: t). by rewrite <- Ht.
Qed.

Lemma projectFiles_lookup (zip : list ZipEntry)
    (rootDir projectJsonPath : jsstring) (p : jsstring) :
  (∀ c, projectFiles zip rootDir projectJsonPath !! p = Some c →
     ∃ e, e ∈ zip ∧ name e = rootDir ++ p ∧ content e = c ∧ dir e = false)
  ∧ (is_Some (projectFiles zip rootDir projectJsonPath !! p) ↔
     p ≠ [] ∧ rootDir ++ p ≠ projectJsonPath
     ∧ startsWith (rootDir ++ p) macPrefix = false
     ∧ ∃ e, e ∈ zip ∧ name e = rootDir ++ p ∧ dir e = false).
Proof.
  induction zip as [|e zip [IH1 IH2]] using rev_ind.
  - change (projectFiles [] rootDir projectJsonPath)
      with (∅ : gmap jsstring jsstring). split.
    + intros c Hc. by rewrite lookup_empty in Hc.
    + rewrite lookup_empty. split; [by intros [? ?]|].
      intros (_ & _ & _ & e & He & _). by apply elem_of_nil in He.
  - assert (∀ e', e' ∈ zip → e' ∈ zip ++ [e]) as Hold
      by (intros e' He'; apply elem_of_app; by left).
    assert (e ∈ zip ++ [e]) as Hnew
      by (apply elem_of_app; right; by apply list_elem_of_singleton).
    destruct (projectFiles_step zip rootDir projectJsonPath e)
      as [(k & Hk & Hne & Hdir & Hpj & Hmac & ->)|[-> Hrej]].
    + destruct (decide (k = p)) as [->|Hkp].
      * rewrite lookup_insert_eq. split.
        -- intros c [= <-]. by exists e.
        -- split; [|by eexists]. intros _. rewrite <- Hk.
           do 3 (split; [done|]). by exists e.
      * rewrite lookup_insert_ne by done. split.
        -- intros c Hc. destruct (IH1 c Hc) as (e' & He' & H').
           exists e'. auto.
        -- rewrite IH2. split; intros (H1 & H2 & H3 & e' & He' & Hn & Hd).
           ++ do 3 (split; [done|]). exists e'. auto.
           ++ do 3 (split; [done|]). exists e'. split; [|done].
              apply elem_of_app in He' as [He'|He']; [done|].
              apply list_elem_of_singleton in He' as ->.
              rewrite Hk in Hn. apply app_inv_head in Hn. done.
    + split.
      * intros c Hc. destruct (IH1 c Hc) as (e' & He' & H').
        exists e'. auto.
      * rewrite IH2. split; intros (H1 & H2 & H3 & e' & He' & Hn & Hd).
        -- do 3 (split; [done|]). exists e'. auto.
        -- do 3 (split; [done|]). exists e'. split; [|done].
           apply elem_of_app in He' as [He'|He']; [done|].
           apply list_elem_of_singleton in He' as ->.
           destruct (Hrej p Hn H1 Hd); [by rewrite Hn|by rewrite Hn].
Qed.

(** X10.  With a [project.json], the import reads the files below its
    folder and files each under its name without the folder: a path is
    imported exactly when the archive has a file entry named by the folder
    followed by the path, the path is not empty, and the entry is neither
    the chosen [project.json] nor below [__MACOSX/]; its content is that
    of such an entry. *)
Theorem project_import_strips_root (zip : list ZipEntry)
    (rootDir projectJsonPath : jsstring) (p : jsstring) :
  (∀ c, projectFiles zip rootDir projectJsonPath !! p = Some c →
     ∃ e, e ∈ zip ∧ name e = rootDir ++ p ∧ content e = c ∧ dir e = false)
  ∧ (is_Some (projectFiles zip rootDir projectJsonPath !! p) ↔
     p ≠ [] ∧ rootDir ++ p ≠ projectJsonPath
     ∧ startsWith (rootDir ++ p) macPrefix = false
     ∧ ∃ e, e ∈ zip ∧ name e = rootDir ++ p ∧ dir e = false).
Proof. exact (projectFiles_lookup zip rootDir projectJsonPath p). Qed.

Lemma project_import_strips_root_witness :
  is_Some (projectFiles sampleZip (lit "demo/") (lit "demo/project.json")
             !! lit "app/Main.java")
  ∧ projectFiles sampleZip (lit "demo/") (lit "demo/project.json")
      !! lit "project.json" = None.
Proof.
  destruct (project_import_strips_root sampleZip (lit "demo/")
              (lit "demo/project.json") (lit "app/Main.java")) as [_ Hfile].
  destruct (project_import_strips_root sampleZip (lit "demo/")
              (lit "demo/project.json") (lit "project.json")) as [_ Hmeta].
  split.
  - apply Hfile. do 3 (split; [done|]). eexists.
    split; [right; right; left|done].
  - apply eq_None_not_Some. intros Hsome.
    by apply Hmeta in Hsome as (_ & Hne & _).
Defined.

Lemma firstOccurrence_found (search a b : jsstring) :
  is_Some (firstOccurrence search (a ++ search ++ b)).
Proof.
  induction a as [|c a IH].
  - assert (startsWith (search ++ b) search = true) as Hs
      by (apply startsWith_prefix; by exists b).
    destruct search, b; simpl in *; rewrite ?Hs; by eexists.
  - rewrite <- app_comm_cons, firstOccurrence_cons.
    destruct (startsWith _ _); [by eexists|].
    destruct IH as [i ->]. by eexists.
Qed.

(** The folder of a [project.json], as the import computes it, followed by
    [project.json] is the path itself. *)
Lemma rootDir_spec (projectJsonPath : jsstring) :
  isProjectJson projectJsonPath = true →
  (if includes projectJsonPath (lit "/")
   then substring projectJsonPath 0
          (default 0 (S <$> lastIndexOf projectJsonPath (lit "/")))
   else []) ++ lit "project.json" = projectJsonPath.
Proof.
  unfold isProjectJson. intros [Hend|Heq]%orb_true_iff.
  - unfold endsWith in Hend. apply startsWith_prefix in Hend as [t Ht].
    apply (f_equal reverse) in Ht.
    rewrite reverse_involutive, reverse_app, reverse_involutive in Ht.
    subst projectJsonPath. set (d := reverse t).
    assert (includes (d ++ lit "/project.json") (lit "/") = true) as ->.
    { unfold includes. apply bool_decide_eq_true.
      apply (firstOccurrence_found (lit "/") d (lit "project.json")). }
    assert (lastIndexOf (d ++ lit "/project.json") (lit "/")
            = Some (length d)) as ->.
    { unfold lastIndexOf. rewrite reverse_app.
      rewrite (firstOccurrence_app _ _ _ 12) by (vm_compute; reflexivity).
      simpl. f_equal. rewrite length_app. simpl. lia. }
    unfold substring. simpl default.
    rewrite length_app.
    change (length (lit "/project.json")) with 13.
    replace (0 `min` (length d + 13)) with 0 by lia.
    replace (S (length d) `min` (length d + 13)) with (S (length d)) by lia.
    replace (0 `max` S (length d) - 0 `min` S (length d)) with (S (length d))
      by lia.
    replace (0 `min` S (length d)) with 0 by lia.
    rewrite drop_0.
    change (lit "/project.json") with ([ "/" ] ++ lit "project.json").
    rewrite app_assoc, take_app_length'; [done|].
    rewrite length_app. simpl. lia.
  - apply bool_decide_eq_true in Heq. by subst projectJsonPath.
Qed.

Lemma compareDepth_antisym (a b : jsstring) :
  compareDepth b a = CompOpp (compareDepth a b).
Proof. unfold compareDepth. apply Nat.compare_antisym. Qed.

Lemma compareDepth_trans (a b c : jsstring) :
  compareDepth a b ≠ Gt → compareDepth b c ≠ Gt → compareDepth a c ≠ Gt.
Proof.
  unfold compareDepth. rewrite !Nat.compare_gt_iff. lia.
Qed.

(** The first path after the sort is one of the paths and none is
    shallower. *)
Lemma sort_compareDepth_head (paths : list jsstring)
    (projectJsonPath : jsstring) (rest : list jsstring) :
  sort compareDepth paths = projectJsonPath :: rest →
  projectJsonPath ∈ paths
  ∧ ∀ q, q ∈ paths →
      length (split "/" projectJsonPath) ≤ length (split "/" q).
Proof.
  intros Hsort.
  pose proof (sort_sorted compareDepth compareDepth_antisym
                compareDepth_trans paths) as Hsorted.
  pose proof (sort_perm compareDepth paths) as Hperm.
  rewrite Hsort in Hsorted, Hperm. split.
  - rewrite <- Hperm. by left.
  - intros q Hq. rewrite <- Hperm in Hq.
    apply elem_of_cons in Hq as [->|Hq]; [done|].
    apply StronglySorted_inv in Hsorted as [_ Hall].
    rewrite Forall_forall in Hall. specialize (Hall q Hq).
    unfold notGreater, compareDepth in Hall.
    rewrite Nat.compare_gt_iff in Hall. lia.
Qed.

Section Handler.

Variable jsonParse : jsstring → Outcome jsval.
Variable analyzeImportedProject : gmap jsstring jsstring → Outcome jsval.
Variable storageAccepts : bool.
Variable dateNow : Z.
Variable isoNow : jsstring.
Variable coercedPositive : jsval → bool.

Abbreviation import :=
  (handleImportProject jsonParse analyzeImportedProject storageAccepts dateNow
     isoNow coercedPositive).

(** Both branches end in the [catch] block or with the save. *)
Lemma importInferred_ends (zip : list ZipEntry) (st : ImportState) :
  let st' := importInferred analyzeImportedProject storageAccepts dateNow
               isoNow zip st in
  (∃ m, st' = importFailed m st)
  ∨ (∃ newProject, st' = importDone storageAccepts newProject st).
Proof.
  unfold importInferred. case_bool_decide; [left; by eexists|].
  destruct (analyzeImportedProject _); [|left; by eexists].
  destruct (memberOf _ _); [|left; by eexists].
  right. by eexists.
Qed.

Lemma importWithMetadata_ends (zip : list ZipEntry)
    (projectJsonPaths : list jsstring) (st : ImportState) :
  let st' := importWithMetadata jsonParse storageAccepts dateNow isoNow
               coercedPositive zip projectJsonPaths st in
  (∃ m, st' = importFailed m st)
  ∨ (∃ projectJsonPath rest rootDir newProject,
       sort compareDepth projectJsonPaths = projectJsonPath :: rest
       ∧ (isProjectJson projectJsonPath = true →
          rootDir ++ lit "project.json" = projectJsonPath)
       ∧ getMember newProject (lit "files")
         = filesObject (projectFiles zip rootDir projectJsonPath)
       ∧ st' = importDone storageAccepts newProject st).
Proof.
  unfold importWithMetadata.
  destruct (sort compareDepth projectJsonPaths)
    as [|projectJsonPath rest]; [left; by eexists|].
  destruct (zipFile zip projectJsonPath) as [metadataFile|];
    [|left; by eexists].
  destruct (jsonParse (content metadataFile)) as [metadata|m];
    [|left; by eexists].
  cbv zeta.
  match goal with |- context [projectFiles zip ?r projectJsonPath] =>
    set (rootDir := r) end.
  destruct (if bool_decide (size (projectFiles zip rootDir projectJsonPath) = 0)
            then planListsFiles coercedPositive metadata
            else Returned false) as [[|]|m];
    [left; by eexists| |left; by eexists].
  destruct (memberOf metadata (lit "review")) as [review|m];
    [|left; by eexists].
  right. exists projectJsonPath, rest, rootDir. eexists.
  split; [done|]. split; [apply rootDir_spec|]. split; [|reflexivity].
  cbn [getMember]. rewrite stamp_other by done.
  by rewrite lookupProp_setProp_eq.
Qed.

(** X11.  When the archive holds a [project.json], a successful import
    takes the one that is the least deep (none of the archive has fewer
    segments) and reads the files below its folder: the files of the new
    project are those the archive holds under that folder. *)
Theorem import_reads_below_shallowest_metadata (zip : list ZipEntry)
    (st : ImportState) :
  List.filter isProjectJson (name <$> zip) ≠ [] →
  importError (import zip st) = None →
  ∃ rootDir projectJsonPath newProject,
    projectJsonPath = rootDir ++ lit "project.json"
    ∧ projectJsonPath ∈ name <$> zip
    ∧ (∀ q, q ∈ name <$> zip → isProjectJson q = true →
         length (split "/" projectJsonPath) ≤ length (split "/" q))
    ∧ savedProjects (import zip st)
      = (if storageAccepts then savedProjects st ++ [newProject]
         else savedProjects st)
    ∧ getMember newProject (lit "files")
      = filesObject (projectFiles zip rootDir projectJsonPath).
Proof.
  unfold handleImportProject.
  destruct (List.filter isProjectJson (name <$> zip)) as [|p0 ps] eqn:Hpaths;
    [done|].
  intros _.
  match goal with |- context [importWithMetadata _ _ _ _ _ _ _ ?s] =>
    destruct (importWithMetadata_ends zip (p0 :: ps) s)
      as [[m ->]|(pj & rest & rootDir & np & Hsort & Hroot & Hfiles & ->)]
  end; [done|].
  intros _. apply sort_compareDepth_head in Hsort as [Hin Hmin].
  rewrite <- Hpaths in Hin, Hmin.
  apply list_elem_of_In, filter_In in Hin as [Hin Hpj].
  apply list_elem_of_In in Hin.
  exists rootDir, pj, np.
  split; [symmetry; by apply Hroot|].
  split; [done|]. split; [|done].
  intros q Hq Hqpj. apply Hmin. apply list_elem_of_In, filter_In.
  split; [by apply list_elem_of_In|done].
Qed.

(** X12.  An import that ends with an error leaves the saved projects as
    they were and shows no information message. *)
Theorem failed_import_saves_nothing (zip : list ZipEntry)
    (st : ImportState) :
  importError (import zip st) ≠ None →
  savedProjects (import zip st) = savedProjects st
  ∧ infoMessage (import zip st) = None.
Proof.
  unfold handleImportProject.
  destruct (List.filter isProjectJson (name <$> zip)) as [|p0 ps].
  - match goal with |- context [importInferred _ _ _ _ _ ?s] =>
      destruct (importInferred_ends zip s) as [[m ->]|[np ->]]
    end; [done|]. intros Herr. by destruct Herr.
  - match goal with |- context [importWithMetadata _ _ _ _ _ _ _ ?s] =>
      destruct (importWithMetadata_ends zip (p0 :: ps) s)
        as [[m ->]|(pj & rest & rootDir & np & _ & _ & _ & ->)]
    end; [done|]. intros Herr. by destruct Herr.
Qed.

Lemma rawFiles_nothing (zip : list ZipEntry) :
  Forall (λ e, dir e = true ∨ startsWith (name e) macPrefix = true) zip →
  rawFiles zip = ∅.
Proof.
  induction zip as [|e zip IH] using rev_ind; [done|].
  intros [Hzip He]%Forall_app. apply Forall_inv in He.
  rewrite rawFiles_snoc.
  destruct He as [He|He]; rewrite He; simpl; rewrite ?andb_false_r;
    by apply IH.
Qed.

(** X13.  An archive without a [project.json] that holds nothing but
    folders and entries below [__MACOSX/] (an empty archive too) is
    refused with the message of an empty archive, whatever the analysis
    service would answer; the saved projects are kept. *)
Theorem empty_archive_is_refused (zip : list ZipEntry) (st : ImportState) :
  List.filter isProjectJson (name <$> zip) = [] →
  Forall (λ e, dir e = true ∨ startsWith (name e) macPrefix = true) zip →
  import zip st
  = {| savedProjects := savedProjects st;
       importError := Some noFilesMessage;
       infoMessage := None |}.
Proof.
  intros Hpaths Hzip. unfold handleImportProject. rewrite Hpaths.
  unfold importInferred. by rewrite (rawFiles_nothing zip Hzip).
Qed.

End Handler.

Lemma import_reads_below_shallowest_metadata_witness :
  ∃ rootDir projectJsonPath newProject,
    projectJsonPath = rootDir ++ lit "project.json"
    ∧ projectJsonPath ∈ name <$> sampleZip
    ∧ (∀ q, q ∈ name <$> sampleZip → isProjectJson q = true →
         length (split "/" projectJsonPath) ≤ length (split "/" q))
    ∧ savedProjects
        (handleImportProject sampleParse noAnalysis true 1700000000000
           (lit "2023-11-14T22:13:20.000Z") (λ _, false) sampleZip importStart)
      = savedProjects importStart ++ [newProject]
    ∧ getMember newProject (lit "files")
      = filesObject (projectFiles sampleZip rootDir projectJsonPath).
Proof.
  apply (import_reads_below_shallowest_metadata sampleParse noAnalysis true
           1700000000000 (lit "2023-11-14T22:13:20.000Z") (λ _, false)
           sampleZip importStart).
  - vm_compute. discriminate.
  - vm_compute. reflexivity.
Defined.

Lemma failed_import_saves_nothing_witness :
  savedProjects
    (handleImportProject sampleParse noAnalysis true 1700000000000
       (lit "2023-11-14T22:13:20.000Z") (λ _, false) plainZip importStart)
  = []
  ∧ infoMessage
      (handleImportProject sampleParse noAnalysis true 1700000000000
         (lit "2023-11-14T22:13:20.000Z") (λ _, false) plainZip importStart)
    = None.
Proof.
  apply (failed_import_saves_nothing sampleParse noAnalysis true
           1700000000000 (lit "2023-11-14T22:13:20.000Z") (λ _, false)
           plainZip importStart).
  vm_compute. discriminate.
Defined.

(** An archive of a folder and a resource fork. *)
Definition forkZip : list ZipEntry :=
  [ {| name := lit "src/"; dir := true; content := [] |};
    {| name := lit "__MACOSX/._Main.java"; dir := false;
       content := lit "Mac OS X" |} ].

Lemma empty_archive_is_refused_witness :
  handleImportProject sampleParse noAnalysis true 1700000000000
    (lit "2023-11-14T22:13:20.000Z") (λ _, false) forkZip importStart
  = {| savedProjects := []; importError := Some noFilesMessage;
       infoMessage := None |}.
Proof.
  apply (empty_archive_is_refused sampleParse noAnalysis true 1700000000000
           (lit "2023-11-14T22:13:20.000Z") (λ _, false) forkZip importStart).
  - reflexivity.
  - constructor; [left; reflexivity|].
    constructor; [right; reflexivity|]. constructor.
Defined.

End ImportingExtras.

(** ** Properties of the archive download, and download followed by
    import *)

Module ZipServiceExtras.
Import Review ReviewFacts JsArray JsArrayFacts JsStringFacts Importing
  ImportingFacts ImportingExtras ZipService.

Lemma replaceWhitespace_clean (inRun : bool) (s : jsstring) :
  Forall (λ c, isWhiteSpace c = false) (replaceWhitespace inRun s).
Proof.
  revert inRun. induction s as [|c s IH]; intros inRun; simpl; [constructor|].
  destruct (isWhiteSpace c) eqn:Hc.
  - destruct inRun; simpl; [apply IH|]. constructor; [done|apply IH].
  - constructor; [done|apply IH].
Qed.

Lemma replaceWhitespace_same (s : jsstring) :
  Forall (λ c, isWhiteSpace c = false) s → replaceWhitespace false s = s.
Proof.
  induction 1 as [|c s Hc Hs IH]; simpl; [done|]. by rewrite Hc, IH.
Qed.

Lemma replaceWhitespace_length (inRun : bool) (s : jsstring) :
  length (replaceWhitespace inRun s) ≤ length s.
Proof.
  revert inRun. induction s as [|c s IH]; intros inRun; simpl; [done|].
  destruct (isWhiteSpace c).
  - specialize (IH true). destruct inRun; simpl; lia.
  - specialize (IH false). simpl. lia.
Qed.

(** X14.  The name of the downloaded archive holds no white space, is not
    longer than the name of the app followed by [.zip], and is the name of
    the app followed by [.zip] when the name of the app holds no white
    space. *)
Theorem download_name_has_no_white_space (project : Project) :
  Forall (λ c, isWhiteSpace c = false) (downloadName project)
  ∧ length (downloadName project) ≤ length (appName (plan project)) + 4
  ∧ (Forall (λ c, isWhiteSpace c = false) (appName (plan project)) →
     downloadName project = appName (plan project) ++ lit ".zip").
Proof.
  unfold downloadName. split; [|split].
  - apply Forall_app. split; [apply replaceWhitespace_clean|].
    by repeat constructor.
  - rewrite length_app.
    pose proof (replaceWhitespace_length false (appName (plan project))).
    simpl. lia.
  - intros Hclean. by rewrite replaceWhitespace_same.
Qed.

Lemma download_name_has_no_white_space_witness :
  downloadName Samples.sampleProject = lit "Notes.zip".
Proof.
  apply (download_name_has_no_white_space Samples.sampleProject).
  by repeat constructor.
Defined.

Lemma split_app_sep (sep : ascii) (a b : jsstring) :
  split sep (a ++ sep :: b) = split sep a ++ split sep b.
Proof.
  induction a as [|c a IH]; simpl.
  - by rewrite bool_decide_true.
  - case_bool_decide; [by rewrite IH|]. rewrite IH.
    pose proof (split_nonempty sep a). by destruct (split sep a).
Qed.

(** A [project.json] of depth one is the one at the root. *)
Lemma isProjectJson_root (p : jsstring) :
  isProjectJson p = true → length (split "/" p) ≤ 1 → p = lit "project.json".
Proof.
  unfold isProjectJson. intros [Hend|Heq]%orb_true_iff Hdepth.
  - unfold endsWith in Hend. apply startsWith_prefix in Hend as [t Ht].
    apply (f_equal reverse) in Ht.
    rewrite reverse_involutive, reverse_app, reverse_involutive in Ht.
    subst p. exfalso. revert Hdepth.
    change (lit "/project.json") with ("/" :: lit "project.json").
    rewrite split_app_sep, length_app.
    pose proof (split_nonempty "/" (reverse t)).
    destruct (split "/" (reverse t)); [done|]. simpl. lia.
  - by apply bool_decide_eq_true in Heq.
Qed.

Section RoundTrip.

Variable jsonStringify : Metadata → jsstring.
Variable jsonParse : jsstring → Outcome jsval.
Variable analyzeImportedProject : gmap jsstring jsstring → Outcome jsval.
Variable storageAccepts : bool.
Variable dateNow : Z.
Variable isoNow : jsstring.
Variable coercedPositive : jsval → bool.

(** The archive holds what the download wrote: each of its file entries is
    one of the calls [zip.file(name, data)], and each call left a file
    entry of its name.  Folder entries are free. *)
Definition holdsDownload (zip : list ZipEntry) (project : Project) : Prop :=
  (∀ e, e ∈ zip → dir e = false →
     (name e, content e) ∈ zipFileCalls jsonStringify project)
  ∧ (∀ w, w ∈ zipFileCalls jsonStringify project →
       ∃ e, e ∈ zip ∧ name e = w.1 ∧ dir e = false).

(** The paths that the import takes back: not empty, not [project.json],
    not below [__MACOSX/]. *)
Definition importable (project : Project) : Prop :=
  ∀ k, is_Some (files project !! k) →
    k ≠ [] ∧ k ≠ lit "project.json" ∧ startsWith k macPrefix = false.

Lemma projectFiles_of_download (zip : list ZipEntry) (project : Project) :
  holdsDownload zip project → importable project →
  projectFiles zip [] (lit "project.json") = files project.
Proof.
  intros [Hfrom Hto] Hkeys. apply map_eq. intros k.
  destruct (projectFiles_lookup zip [] (lit "project.json") k) as [Hc Hsome].
  assert (∀ c, projectFiles zip [] (lit "project.json") !! k = Some c →
               files project !! k = Some c) as Hsound.
  { intros c Hk. assert (k ≠ lit "project.json") as Hne.
    { assert (is_Some (projectFiles zip [] (lit "project.json") !! k)) as Hs
        by by eexists.
      apply Hsome in Hs as (_ & Hne & _). done. }
    destruct (Hc c Hk) as (e & He & Hname & Hcontent & Hdir).
    specialize (Hfrom e He Hdir). rewrite Hname, Hcontent in Hfrom.
    apply elem_of_cons in Hfrom as [[= ? _]|Hfrom]; [done|].
    by apply elem_of_map_to_list in Hfrom. }
  destruct (projectFiles zip [] (lit "project.json") !! k) as [c|] eqn:Hk.
  { symmetry. by apply Hsound. }
  destruct (files project !! k) as [v|] eqn:Hv; [|done].
  exfalso. assert (is_Some (files project !! k)) as Hs by by eexists.
  destruct (Hkeys k Hs) as (Hne & Hpj & Hmac).
  destruct (Hto (k, v)) as (e & He & Hname & Hdir).
  { right. by apply elem_of_map_to_list. }
  assert (is_Some (None : option jsstring)) as [? ?]; [|done].
  apply Hsome. do 3 (split; [done|]). by exists e.
Qed.

(** X15.  Download followed by import gives the files back.  For a project
    whose paths are importable, an import of an archive that holds what
    the download wrote takes the [project.json] at the root, and when it
    succeeds the files of the new project are the files of the downloaded
    one. *)
Theorem download_then_import_restores_files (zip : list ZipEntry)
    (project : Project) (st : ImportState) :
  let st' := handleImportProject jsonParse analyzeImportedProject
               storageAccepts dateNow isoNow coercedPositive zip st in
  holdsDownload zip project → importable project →
  importError st' = None →
  ∃ newProject,
    savedProjects st'
    = (if storageAccepts then savedProjects st ++ [newProject]
       else savedProjects st)
    ∧ getMember newProject (lit "files") = filesObject (files project).
Proof.
  intros st' Hholds Hkeys. subst st'. unfold handleImportProject.
  assert (lit "project.json"
            ∈ List.filter isProjectJson (name <$> zip)) as Hroot.
  { destruct Hholds as [_ Hto].
    destruct (Hto (lit "project.json", jsonStringify (metadata project)))
      as (e & He & Hname & _); [by left|].
    apply list_elem_of_In, filter_In. split; [|by vm_compute].
    apply list_elem_of_In, list_elem_of_fmap. by exists e. }
  destruct (List.filter isProjectJson (name <$> zip)) as [|p0 ps] eqn:Hpaths;
    [by apply elem_of_nil in Hroot|].
  match goal with |- context [importWithMetadata _ _ _ _ _ _ _ ?s] =>
    destruct (importWithMetadata_ends jsonParse storageAccepts dateNow isoNow
                coercedPositive zip (p0 :: ps) s)
      as [[m ->]|(pj & rest & rootDir & np & Hsort & Hdir & Hfiles & ->)]
  end; [done|].
  intros _. exists np. split; [done|]. rewrite Hfiles.
  apply sort_compareDepth_head in Hsort as [Hin Hmin].
  assert (isProjectJson pj = true) as Hpj.
  { rewrite <- Hpaths in Hin. by apply list_elem_of_In, filter_In in Hin as [_ ?]. }
  specialize (Hmin _ Hroot).
  apply isProjectJson_root in Hpj as Heq; [|done]. subst pj.
  specialize (Hdir eq_refl).
  assert (rootDir = []) as ->.
  { apply (f_equal length) in Hdir. rewrite length_app in Hdir.
    apply length_zero_iff_nil. lia. }
  by rewrite (projectFiles_of_download zip project).
Qed.

End RoundTrip.

(** The archive of the download of [Samples.sampleProject]. *)
Definition downloadedZip : list ZipEntry :=
  [ {| name := lit "project.json"; dir := false;
       content := lit "{ the metadata }" |};
    {| name := lit "A.java"; dir := false; content := lit "old" |} ].

Lemma download_then_import_restores_files_witness :
  ∃ newProject,
    savedProjects
      (handleImportProject sampleParse noAnalysis true 1700000000000
         (lit "2023-11-14T22:13:20.000Z") (λ _, false) downloadedZip
         importStart)
    = [newProject]
    ∧ getMember newProject (lit "files")
      = filesObject {[ lit "A.java" := lit "old" ]}.
Proof.
  apply (download_then_import_restores_files (λ _, lit "{ the metadata }")
           sampleParse noAnalysis true 1700000000000
           (lit "2023-11-14T22:13:20.000Z") (λ _, false) downloadedZip
           Samples.sampleProject importStart).
  - split.
    + intros e He _. unfold downloadedZip in He.
      apply elem_of_cons in He as [->|He]; [by left|].
      apply elem_of_cons in He as [->|He]; [|by apply elem_of_nil in He].
      right. apply elem_of_map_to_list. reflexivity.
    + intros w Hw. apply elem_of_cons in Hw as [->|Hw].
      * eexists. split; [by left|done].
      * destruct w as [k v]. apply elem_of_map_to_list in Hw.
        change (files Samples.sampleProject)
          with ({[ lit "A.java" := lit "old" ]} : gmap jsstring jsstring)
          in Hw.
        apply lookup_singleton_Some in Hw as [<- <-].
        eexists. split; [right; by left|done].
  - intros k [v Hv].
    change (files Samples.sampleProject)
      with ({[ lit "A.java" := lit "old" ]} : gmap jsstring jsstring) in Hv.
    apply lookup_singleton_Some in Hv as [<- <-]. done.
  - vm_compute. reflexivity.
Defined.

End ZipServiceExtras.

(** ** Further properties of the path tree *)

Module PathTreeExtras.
Import Review ReviewFacts JsArray JsArrayFacts JsStringFacts PathTree
  PathTreeFacts.

(** X16.  Every file of the plan is found in the tree at the segments of
    its path, whatever the collation, when no file or folder of the plan
    below the root is named [path] and every other entry of the plan is
    apart from the file (its path is another one, and neither path runs
    through the other).  The collation need not be consistent. *)
Theorem every_plan_file_is_reachable
    (localeCompare : jsstring → jsstring → comparison)
    (files : list FilePlan) (f : FilePlan) :
  f ∈ files →
  (∀ g, g ∈ files → lit "path" ∉ tail (split "/" (path g))) →
  (∀ g, g ∈ files → g = f ∨ apart (path f) (path g)) →
  nodeAt (split "/" (path f)) (buildFileTree localeCompare files)
  = Some (File f).
Proof.
  intros Hf Hpath Hothers. unfold buildFileTree.
  apply (nodeAt_insertAll_complete [] (sort (comparePaths localeCompare) files)).
  - constructor.
  - intros g Hg. apply Hpath. by rewrite sort_perm in Hg.
  - by rewrite sort_perm.
  - intros g Hg. apply Hothers. by rewrite sort_perm in Hg.
Qed.

Lemma every_plan_file_is_reachable_witness :
  nodeAt [ lit "app"; lit "res"; lit "layout.xml" ]
    (buildFileTree codeUnitCompare exampleFiles)
  = Some (File {| path := lit "app/res/layout.xml";
                  description := lit "Main layout" |}).
Proof.
  apply (every_plan_file_is_reachable codeUnitCompare exampleFiles
           {| path := lit "app/res/layout.xml";
              description := lit "Main layout" |}).
  - right. by left.
  - intros g Hg. unfold exampleFiles in Hg.
    repeat (apply elem_of_cons in Hg as [->|Hg];
            [vm_compute; intros Hin;
             repeat (apply elem_of_cons in Hin as [Hin|Hin]; [done|]);
             by apply elem_of_nil in Hin|]).
    by apply elem_of_nil in Hg.
  - intros g Hg. unfold exampleFiles in Hg.
    apply elem_of_cons in Hg as [->|Hg].
    { right. split; vm_compute; intros [k Hk]; discriminate. }
    apply elem_of_cons in Hg as [->|Hg]; [by left|].
    apply elem_of_cons in Hg as [->|Hg]; [|by apply elem_of_nil in Hg].
    right. split; vm_compute; intros [k Hk]; discriminate.
Defined.

(** The first hypothesis is needed: a folder that holds a file named
    [path] is taken for a file by the next insertion below it, and is
    emptied. *)
Example folder_with_path_entry_is_emptied :
  nodeAt [ lit "a"; lit "path" ]
    (buildFileTree codeUnitCompare
       [ {| path := lit "a/path"; description := [] |};
         {| path := lit "a/x.txt"; description := [] |} ])
  = None.
Proof. reflexivity. Qed.

End PathTreeExtras.
